(** * ParamNN: the training pipeline of [models.py]

    A shallow embedding of the sample-weighting, background-inflation,
    batching, scheduling, early-stopping, evaluation and training code of
    [models.py], and the properties its specification states about them.

    Conventions of the embedding.
    - A NumPy [float64] is a [float]: a rational ([Fin q]) or one of the
      IEEE special values.  Arithmetic on finite values is exact: the
      rounding of double-precision operations, overflow and the sign of zero
      are not modelled.  The conversion to single precision that the source
      asks for ([dtype=torch.float]) is modelled, by [to_float32].
    - A Python exception is a [Raise e] result; every function that can
      raise returns a [result].
    - A one-dimensional array is a list, a two-dimensional array a list of
      rows of one length.  A function that updates an array in place and
      returns it is modelled by the new contents of the array.
    - What the libraries contribute (the network and its optimizer, the ROC
      metrics) and what the surroundings decide (random permutations, an
      interrupt signal) are parameters: [Torch], [Sklearn], [Env]. *)

From stdpp Require Import base list gmap strings.
From Stdlib Require Import ZArith QArith Qabs Qcanon Lia.

Open Scope Qc_scope.

(** ** Exceptions and results *)

Inductive exn : Type :=
  | ZeroDivisionError
  | ValueError
  | IndexError
  | AxisError
  | IndexingError
  | RuntimeError
  | OverflowError
  | KeyboardInterrupt
  | LibraryError.

Inductive result (A : Type) : Type :=
  | Ok (a : A)
  | Raise (e : exn).
Arguments Ok {A} a.
Arguments Raise {A} e.

#[global] Instance result_ret : MRet result := @Ok.
#[global] Instance result_bind : MBind result := fun A B k r =>
  match r with
  | Ok a => k a
  | Raise e => Raise e
  end.


(** ** Floating-point values *)

Inductive float : Type :=
  | Fin (q : Qc)
  | PInf
  | NInf
  | NaN.

Definition Qc_eqb (a b : Qc) : bool := Qeq_bool a b.
Definition Qc_ltb (a b : Qc) : bool := if Qclt_le_dec a b then true else false.

(** The sign of a finite value, as a comparison with zero. *)
Definition Qc_sign (q : Qc) : comparison := q ?= 0.

Definition fneg (x : float) : float :=
  match x with
  | Fin q => Fin (- q)
  | PInf => NInf
  | NInf => PInf
  | NaN => NaN
  end.

Definition fadd (x y : float) : float :=
  match x, y with
  | NaN, _ | _, NaN => NaN
  | Fin a, Fin b => Fin (a + b)
  | PInf, NInf | NInf, PInf => NaN
  | PInf, _ | _, PInf => PInf
  | NInf, _ | _, NInf => NInf
  end.

Definition fsub (x y : float) : float := fadd x (fneg y).

(** An infinity of the sign of [q], or [NaN] when [q] is zero. *)
Definition signed_inf (pos : bool) (q : Qc) : float :=
  match Qc_sign q with
  | Eq => NaN
  | Gt => if pos then PInf else NInf
  | Lt => if pos then NInf else PInf
  end.

Definition fmul (x y : float) : float :=
  match x, y with
  | NaN, _ | _, NaN => NaN
  | Fin a, Fin b => Fin (a * b)
  | Fin a, PInf | PInf, Fin a => signed_inf true a
  | Fin a, NInf | NInf, Fin a => signed_inf false a
  | PInf, PInf | NInf, NInf => PInf
  | PInf, NInf | NInf, PInf => NInf
  end.

(** NumPy's division: a zero divisor gives an infinity or [NaN] (and a
    warning), never an exception. *)
Definition fdiv (x y : float) : float :=
  match x, y with
  | NaN, _ | _, NaN => NaN
  | Fin a, Fin b => if Qc_eqb b 0 then signed_inf true a else Fin (a / b)
  | Fin _, PInf | Fin _, NInf => Fin 0
  | PInf, Fin b => if Qc_ltb b 0 then NInf else PInf
  | NInf, Fin b => if Qc_ltb b 0 then PInf else NInf
  | PInf, _ | NInf, _ => NaN
  end.

(** [x == y]: [NaN] equals nothing. *)
Definition feqb (x y : float) : bool :=
  match x, y with
  | Fin a, Fin b => Qc_eqb a b
  | PInf, PInf | NInf, NInf => true
  | _, _ => false
  end.

(** [x < y]: every comparison with [NaN] is false. *)
Definition fltb (x y : float) : bool :=
  match x, y with
  | NaN, _ | _, NaN => false
  | Fin a, Fin b => Qc_ltb a b
  | NInf, NInf | PInf, _ => false
  | NInf, _ | _, PInf => true
  | Fin _, NInf => false
  end.

Definition fgtb (x y : float) : bool := fltb y x.

(** ** Python scalars

    The scalars the weight balancer computes with: a Python [int], a Python
    [float] and a NumPy [float64].  They differ in what division by zero
    does. *)

Inductive pyval : Type :=
  | PyInt (n : Z)
  | PyFloat (x : float)
  | NpFloat (x : float).

Definition Z2Qc (n : Z) : Qc := Q2Qc (inject_Z n).

Definition to_float (v : pyval) : float :=
  match v with
  | PyInt n => Fin (Z2Qc n)
  | PyFloat x => x
  | NpFloat x => x
  end.

Definition py_is_zero (v : pyval) : bool := feqb (to_float v) (Fin 0).

(** [a / b].  When either operand is a NumPy scalar the division is NumPy's;
    between Python numbers a zero divisor raises. *)
Definition truediv (a b : pyval) : result pyval :=
  match a, b with
  | NpFloat x, _ => Ok (NpFloat (fdiv x (to_float b)))
  | _, NpFloat y => Ok (NpFloat (fdiv (to_float a) y))
  | _, _ =>
      if py_is_zero b then Raise ZeroDivisionError
      else Ok (PyFloat (fdiv (to_float a) (to_float b)))
  end.

(** The builtin [sum] over a [float64] array: the fold starts from the
    integer [0], which is what an empty array returns. *)
Definition py_sum (l : list float) : pyval :=
  match l with
  | [] => PyInt 0
  | _ :: _ => NpFloat (fold_left fadd l (Fin 0))
  end.

(** ** Array primitives *)

(** [a & b] on boolean arrays. *)
Definition np_and (a b : list bool) : result (list bool) :=
  if decide (length a = length b) then Ok (zip_with andb a b)
  else Raise ValueError.

(** [arr == v], element by element. *)
Definition np_eq (arr : list float) (v : float) : list bool :=
  (fun x => feqb x v) <$> arr.

(** [arr[mask]]: the selected elements, in order. *)
Fixpoint select {A : Type} (mask : list bool) (arr : list A) : list A :=
  match mask, arr with
  | b :: mask', x :: arr' =>
      if b then x :: select mask' arr' else select mask' arr'
  | _, _ => []
  end.

Definition np_select {A : Type} (arr : list A) (mask : list bool)
  : result (list A) :=
  if decide (length mask = length arr) then Ok (select mask arr)
  else Raise IndexError.

(** [arr[mask] = vals]: the selected positions are overwritten, in order. *)
Fixpoint assign {A : Type} (mask : list bool) (arr vals : list A) : list A :=
  match mask, arr with
  | b :: mask', x :: arr' =>
      if b then
        match vals with
        | v :: vals' => v :: assign mask' arr' vals'
        | [] => x :: assign mask' arr' []
        end
      else x :: assign mask' arr' vals
  | _, _ => arr
  end.

Definition np_assign {A : Type} (arr : list A) (mask : list bool)
    (vals : list A) : result (list A) :=
  if decide (length mask = length arr) then
    if decide (length vals = length (select mask arr)) then
      Ok (assign mask arr vals)
    else Raise ValueError
  else Raise IndexError.

(** [arr * s] for a scalar [s]. *)
Definition np_scale (arr : list float) (s : pyval) : list float :=
  (fun x => fmul x (to_float s)) <$> arr.

(** [X[:,-1]]: the last column of a two-dimensional array. *)
Fixpoint last_column (X : list (list float)) : result (list float) :=
  match X with
  | [] => Ok []
  | row :: X' =>
      match last row with
      | None => Raise IndexError
      | Some x => col ← last_column X'; Ok (x :: col)
      end
  end.

(** ** The model and its configuration *)

(** The part of a [Model] the data preparation reads: the configured mass
    points. *)
Record Model : Type := { train_masses : list float }.

(** ** Weight balancing: [Model.equaliseWeights] *)

Definition signal : float := Fin 1.
Definition background : float := Fin 0.

(** [(y==label)&(X[:,-1]==m)] *)
Definition class_mass_mask (X : list (list float)) (y : list float)
    (label m : float) : result (list bool) :=
  col ← last_column X;
  np_and (np_eq y label) (np_eq col m).

(** [w[mask] = w[mask] * (num / sum(w[mask]))], the mask being evaluated by
    [mk] each time it is written in the source. *)
Definition rescale_where (mk : result (list bool)) (num : pyval)
    (w : list float) : result (list float) :=
  m1 ← mk;
  sel ← np_select w m1;
  m2 ← mk;
  den ← np_select w m2;
  s ← truediv num (py_sum den);
  m3 ← mk;
  np_assign w m3 (np_scale sel s).

(** The body of the loop over the mass points. *)
Definition equalise_mass (X : list (list float)) (y : list float)
    (avg_sig_sumw : pyval) (w : list float) (m : float)
  : result (list float) :=
  w ← rescale_where (class_mass_mask X y signal m) avg_sig_sumw w;
  rescale_where (class_mass_mask X y background m) avg_sig_sumw w.

Fixpoint for_each {A S : Type} (body : S -> A -> result S) (s : S)
    (l : list A) : result S :=
  match l with
  | [] => Ok s
  | a :: l' => s' ← body s a; for_each body s' l'
  end.

(** The first stage: the averages and the loop over the mass points.
    Returns the weights and [avg_sig_sumw]. *)
Definition equalise_masses (self : Model) (X : list (list float))
    (w y : list float) : result (list float * pyval) :=
  let n := PyInt (Z.of_nat (length (train_masses self))) in
  sig ← np_select w (np_eq y signal);
  avg_sig_sumw ← truediv (py_sum sig) n;
  bkg ← np_select w (np_eq y background);
  avg_bkg_sumw ← truediv (py_sum bkg) n;
  w ← for_each (equalise_mass X y avg_sig_sumw) w (train_masses self);
  Ok (w, avg_sig_sumw).

(** The second stage: signal against background. *)
Definition equalise_classes (w y : list float) (norm : option pyval)
  : result (list float) :=
  norm ← match norm with
         | None => sig ← np_select w (np_eq y signal); Ok (py_sum sig)
         | Some v => Ok v
         end;
  w ← rescale_where (Ok (np_eq y signal)) norm w;
  rescale_where (Ok (np_eq y background)) norm w.

Definition equaliseWeights (self : Model) (X : list (list float))
    (w y : list float) (norm : option pyval) : result (list float) :=
  '(w, _) ← equalise_masses self X w y;
  equalise_classes w y norm.

(** ** Data frames

    A [pandas.DataFrame] with the default index: the column names in order,
    and each row as a map from column name to value.  A column a row lacks
    reads as [NaN]. *)

Record DataFrame : Type := {
  columns : list string;
  rows : list (gmap string float)
}.

(** [X[mask]] and [s[mask]] for a boolean series [mask]. *)
Definition pd_select {A : Type} (arr : list A) (mask : list bool)
  : result (list A) :=
  if decide (length mask = length arr) then Ok (select mask arr)
  else Raise IndexingError.

Definition df_select (X : DataFrame) (mask : list bool) : result DataFrame :=
  r ← pd_select (rows X) mask;
  Ok {| columns := columns X; rows := r |}.

(** [X.loc[:, c] = v] *)
Definition set_column (c : string) (v : float) (X : DataFrame) : DataFrame :=
  {| columns := if decide (c ∈ columns X) then columns X else columns X ++ [c];
     rows := (fun r => <[c := v]> r) <$> rows X |}.

(** [X[c]] *)
Definition df_column (c : string) (X : DataFrame) : list float :=
  (fun r : gmap string float => default NaN (r !! c)) <$> rows X.

(** [pd.concat(frames, ignore_index=True)] *)
Definition pd_concat (frames : list DataFrame) : result DataFrame :=
  match frames with
  | [] => Raise ValueError
  | _ :: _ =>
      Ok {| columns := remove_dups (concat (columns <$> frames));
            rows := concat (rows <$> frames) |}
  end.

(** [X.to_numpy()] *)
Definition to_numpy (X : DataFrame) : list (list float) :=
  (fun r : gmap string float =>
     (fun c => default NaN (r !! c)) <$> columns X) <$> rows X.

(** [sum(mask)]: the number of selected events. *)
Definition count_true (mask : list bool) : nat :=
  length (filter (fun b => b = true) mask).

(** ** Background inflation: [Model.inflateBkgWithMasses] *)

Definition inflateBkgWithMasses (self : Model) (X : DataFrame)
    (y w : list float) : result (DataFrame * list float * list float) :=
  X_sig ← df_select X (np_eq y signal);
  y_sig ← pd_select y (np_eq y signal);
  w_sig ← pd_select w (np_eq y signal);
  X_bkg ← df_select X (np_eq y background);
  y_bkg ← pd_select y (np_eq y background);
  w_bkg ← pd_select w (np_eq y background);
  let '(Xs, ys, ws) :=
    fold_left
      (fun '(Xs, ys, ws) m =>
         let X_bkg_c := set_column "mass" m X_bkg in
         (Xs ++ [X_bkg_c], ys ++ [y_bkg], ws ++ [w_bkg]))
      (train_masses self) ([X_sig], [y_sig], [w_sig]) in
  X ← pd_concat Xs;
  Ok (X, concat ys, concat ws).

(** ** Single precision

    [torch.tensor(a, dtype=torch.float)] converts every entry to IEEE
    binary32, rounding to nearest, ties to even. *)

(** The nearest integer to [n / d], ties to even. *)
Definition round_half_even (n : Z) (d : positive) : Z :=
  let f := (n / Zpos d)%Z in
  let r := (2 * (n - f * Zpos d))%Z in
  match (r ?= Zpos d)%Z with
  | Lt => f
  | Gt => (f + 1)%Z
  | Eq => if Z.even f then f else (f + 1)%Z
  end.

Definition pow2 (e : Z) : Q := Qpower 2 e.

(** The exponent [e] with [2^e <= x < 2^(e+1)], for [x > 0]. *)
Definition binade (x : Q) : Z :=
  let e := (Z.log2 (Qnum x) - Z.log2 (Zpos (Qden x)))%Z in
  if Qle_bool (pow2 e) x then e else (e - 1)%Z.

Definition round_binary32 (x : Q) : float :=
  if Qeq_bool x 0 then Fin 0
  else
    let a := Qabs x in
    let u := Z.max (binade a - 23) (-149) in
    let t := Qred (a / pow2 u) in
    let m := round_half_even (Qnum t) (Qden t) in
    let r := (inject_Z m * pow2 u)%Q in
    if Qle_bool (pow2 128) r then (if Qle_bool 0 x then PInf else NInf)
    else Fin (Q2Qc (if Qle_bool 0 x then r else Qopp r)).

Definition to_float32 (x : float) : float :=
  match x with
  | Fin q => round_binary32 q
  | _ => x
  end.

(** ** Python ranges and slices *)

(** [range(0, stop, step)] *)
Definition py_range (stop step : Z) : result (list Z) :=
  if (step =? 0)%Z then Raise ValueError
  else
    let len :=
      if (0 <? step)%Z then ((stop + step - 1) / step)%Z
      else ((- stop + - step - 1) / - step)%Z in
    Ok ((fun k => (Z.of_nat k * step)%Z) <$> seq 0 (Z.to_nat len)).

(** A slice bound, brought into [0 .. n]. *)
Definition clamp_index (n i : Z) : Z :=
  if (i <? 0)%Z then Z.max (i + n) 0 else Z.min i n.

(** [l[start:stop]], an omitted bound being [None]. *)
Definition py_slice {A : Type} (l : list A) (start stop : option Z) : list A :=
  let n := Z.of_nat (length l) in
  let a := from_option (clamp_index n) 0%Z start in
  let b := from_option (clamp_index n) n stop in
  take (Z.to_nat (b - a)) (drop (Z.to_nat a) l).

(** [arr[ids]] for an array of indices. *)
Fixpoint np_take {A : Type} (arr : list A) (ids : list nat) : result (list A) :=
  match ids with
  | [] => Ok []
  | i :: ids' =>
      match arr !! i with
      | None => Raise IndexError
      | Some x => xs ← np_take arr ids'; Ok (x :: xs)
      end
  end.

(** ** Batching: [ParamNN.getBatches] *)

Definition batch : Type := list (list float) * list float * list float.

(** [torch.tensor(batch_X, dtype=torch.float).reshape(-1, X.shape[1])]:
    the reshape leaves a batch of rows as it is, and fails on rows without
    columns. *)
Definition tensor2 (b : list (list float)) : result (list (list float)) :=
  if decide (Forall (fun r => r ≠ []) b)
  then Ok ((fun r : list float => to_float32 <$> r) <$> b)
  else Raise RuntimeError.

Definition tensor1 (b : list float) : list float := to_float32 <$> b.

Fixpoint slices (X : list (list float)) (y w : list float) (batch_size : Z)
    (starts : list Z) : result (list batch) :=
  match starts with
  | [] => Ok []
  | i :: starts' =>
      let stop := Some (i + batch_size)%Z in
      let batch_X := py_slice X (Some i) stop in
      let batch_y := py_slice y (Some i) stop in
      let batch_w := py_slice w (Some i) stop in
      X_torch ← tensor2 batch_X;
      rest ← slices X y w batch_size starts';
      Ok ((X_torch, tensor1 batch_y, tensor1 batch_w) :: rest)
  end.

(** The batches the generator yields, in order.  [shuffle] is [None] for
    [shuffle=False] and [Some ids] for [shuffle=True], [ids] being the value
    of [np.random.permutation(len(X))].  [.copy()] and [.to(dev)] change no
    value. *)
Definition getBatches (X : list (list float)) (y w : list float)
    (batch_size : Z) (shuffle : option (list nat)) : result (list batch) :=
  '(X_sh, y_sh, w_sh) ←
    match shuffle with
    | Some shuffle_ids =>
        X_sh ← np_take X shuffle_ids;
        y_sh ← np_take y shuffle_ids;
        w_sh ← np_take w shuffle_ids;
        Ok (X_sh, y_sh, w_sh)
    | None => Ok (X, y, w)
    end;
  starts ← py_range (Z.of_nat (length X)) batch_size;
  slices X_sh y_sh w_sh batch_size starts.

(** ** Reductions over arrays *)

(** [arr.sum()]: zero for an empty array. *)
Definition np_sum (arr : list float) : float := fold_left fadd arr (Fin 0).

Definition fmin (x y : float) : float :=
  match x, y with
  | NaN, _ | _, NaN => NaN
  | _, _ => if fltb y x then y else x
  end.

Definition fmax (x y : float) : float :=
  match x, y with
  | NaN, _ | _, NaN => NaN
  | _, _ => if fltb x y then y else x
  end.

(** [arr.min()] and [arr.max()]: an empty array has neither. *)
Definition np_min (arr : list float) : result float :=
  match arr with
  | [] => Raise ValueError
  | x :: arr' => Ok (fold_left fmin arr' x)
  end.

Definition np_max (arr : list float) : result float :=
  match arr with
  | [] => Raise ValueError
  | x :: arr' => Ok (fold_left fmax arr' x)
  end.

(** [np.array(losses)] for a list of per-epoch records: the records must
    have one length. *)
Definition np_array (losses : list (list float)) : result (list (list float)) :=
  match losses with
  | [] => Ok []
  | r :: _ =>
      if decide (Forall (fun r' : list float => length r' = length r) losses)
      then Ok losses
      else Raise ValueError
  end.

(** [losses.sum(axis=1)]: the array of no records has no second axis. *)
Definition sum_axis1 (losses : list (list float)) : result (list float) :=
  match losses with
  | [] => Raise AxisError
  | _ :: _ => Ok (np_sum <$> losses)
  end.

(** [losses[:,i]] *)
Fixpoint column (i : nat) (losses : list (list float)) : result (list float) :=
  match losses with
  | [] => Ok []
  | r :: losses' =>
      match r !! i with
      | None => Raise IndexError
      | Some x => col ← column i losses'; Ok (x :: col)
      end
  end.

(** [np.where(arr==v)[0][0]]: the first index at which [arr] equals [v]. *)
Fixpoint first_index (arr : list float) (v : float) : result nat :=
  match arr with
  | [] => Raise IndexError
  | x :: arr' =>
      if feqb x v then Ok 0%nat
      else i ← first_index arr' v; Ok (S i : nat)
  end.

(** A loop over [range(n)] that sets a flag and breaks at the first index
    passing [test]. *)
Fixpoint any_index (test : nat -> result bool) (idx : list nat) : result bool :=
  match idx with
  | [] => Ok false
  | i :: idx' =>
      b ← test i;
      if b : bool then Ok true else any_index test idx'
  end.

(** ** Early stopping: [ParamNN.shouldEarlyStop] *)

(** The body of the first loop: is the loss of mass point [i] unstable? *)
Definition unstable (losses : list (list float)) (grace_epochs : Z)
    (tol : float) (i : nat) : result bool :=
  col ← column i losses;
  best_loss ← np_min col;
  hi ← np_max (py_slice col (Some (- grace_epochs)%Z) None);
  lo ← np_min (py_slice col (Some (- grace_epochs)%Z) None);
  let variation := fsub hi lo in
  Ok (fgtb (fdiv variation best_loss) tol).

(** The body of the second loop: does mass point [i] make good progress? *)
Definition improving (losses : list (list float)) (grace_epochs : Z)
    (tol : float) (i : nat) : result bool :=
  col ← column i losses;
  best_loss ← np_min col;
  best_loss_before ← np_min (py_slice col None (Some (- grace_epochs)%Z));
  Ok (fgtb (fdiv (fsub best_loss_before best_loss) best_loss) tol).

(** The epoch (counted from 1) of the best summed loss. *)
Definition best_epoch (slosses : list float) : result Z :=
  best_loss ← np_min slosses;
  i ← first_index slosses best_loss;
  Ok (Z.of_nat i + 1)%Z.

Definition shouldEarlyStop (self : Model) (losses : list (list float))
    (min_epoch grace_epochs : Z) (tol : float) : result bool :=
  let n_epochs := Z.of_nat (length losses) in
  if (n_epochs <? min_epoch)%Z then Ok false
  else
    losses ← np_array losses;
    slosses ← sum_axis1 losses;
    let masses := seq 0 (length (train_masses self)) in
    any_unstable ←
      (if (grace_epochs <? n_epochs)%Z
       then any_index (unstable losses grace_epochs tol) masses
       else Ok false);
    if any_unstable : bool then Ok false
    else
      best_loss_epoch ← best_epoch slosses;
      if (grace_epochs <? n_epochs - best_loss_epoch)%Z then Ok true
      else if (grace_epochs <? n_epochs)%Z then
        any_make_good_improvement ←
          any_index (improving losses grace_epochs tol) masses;
        if negb any_make_good_improvement : bool then Ok true else Ok false
      else Ok false.

(** ** Learning-rate scheduling: [ParamNN.shouldSchedulerStep]

    The method reads and writes [self.last_step_epoch]: the model takes the
    current value and returns the new one with the answer. *)

Definition shouldSchedulerStep (last_step_epoch : Z)
    (losses : list (list float)) : result (bool * Z) :=
  let n_epochs := Z.of_nat (length losses) in
  losses ← np_array losses;
  slosses ← sum_axis1 losses;
  best_loss_epoch ← best_epoch slosses;
  if ((5 <? n_epochs - best_loss_epoch)%Z
      && (5 <? n_epochs - last_step_epoch)%Z)%bool
  then Ok (true, n_epochs)
  else Ok (false, last_step_epoch).


(** ** The network

    What [torch] contributes, as an interface.  A value of [net] stands for
    the parameters of [self.model], the state of the optimizer and of the
    learning-rate scheduler, and the state of torch's random generator (the
    network has dropout layers and stays in training mode). *)

Record Torch : Type := {
  net : Type;
  (** [self.model(X_torch)], as an array on the host *)
  forward : net -> list (list float) -> list float * net;
  (** [self.loss_function(input, target, weight).item()] *)
  loss_function : list float -> list float -> list float -> float;
  (** the loss of a batch, [zero_grad], [backward] and [optimizer.step] *)
  optimizer_step : net -> batch -> net;
  (** [scheduler.step()] *)
  scheduler_step : net -> net
}.

(** ** Prediction: [ParamNN.predict] *)

(** [np.concatenate(arrays)] *)
Definition np_concatenate {A : Type} (arrays : list (list A))
  : result (list A) :=
  match arrays with
  | [] => Raise ValueError
  | _ :: _ => Ok (concat arrays)
  end.

(** The loop of [predict]: one forward pass per slice, the outputs appended
    to [predictions]. *)
Fixpoint predict_loop (T : Torch) (X : list (list float)) (batch_size : Z)
    (starts : list Z) (predictions : list (list float)) (g : net T)
  : result (list (list float) * net T) :=
  match starts with
  | [] => Ok (predictions, g)
  | i_picture :: starts' =>
      let batch_X :=
        py_slice X (Some i_picture) (Some (i_picture + batch_size)%Z) in
      X_torch ← tensor2 batch_X;
      let '(out, g) := forward T g X_torch in
      predict_loop T X batch_size starts' (predictions ++ [out]) g
  end.

Definition predict (T : Torch) (X : DataFrame) (batch_size : Z) (g : net T)
  : result (list float * net T) :=
  let X := to_numpy X in
  starts ← py_range (Z.of_nat (length X)) batch_size;
  '(predictions, g) ← predict_loop T X batch_size starts [] g;
  out ← np_concatenate predictions;
  Ok (out, g).

(** ** Evaluation: [Model.getROC] *)

(** What [sklearn.metrics] contributes. *)
Record Sklearn : Type := {
  roc_curve :
    list float -> list float -> option (list float) ->
    result (list float * list float * list float);
  roc_auc_score :
    list float -> list float -> option (list float) -> result float
}.

(** [a * b] on one-dimensional arrays, with broadcasting of a length-one
    operand. *)
Definition np_mul (a b : list float) : result (list float) :=
  if decide (length a = length b) then Ok (zip_with fmul a b)
  else
    match a, b with
    | [x], _ => Ok ((fun y => fmul x y) <$> b)
    | _, [y] => Ok ((fun x => fmul x y) <$> a)
    | _, _ => Raise ValueError
    end.

(** [np.diff(x)] *)
Definition np_diff (x : list float) : list float :=
  zip_with (fun a b => fsub b a) x (drop 1 x).

(** [np.trapz(y, x)]: [(diff(x) * (y[1:] + y[:-1]) / 2.0).sum()] *)
Definition np_trapz (y x : list float) : result float :=
  let d := np_diff x in
  let s := zip_with fadd (py_slice y (Some 1%Z) None)
                         (py_slice y None (Some (-1)%Z)) in
  p ← np_mul d s;
  Ok (np_sum ((fun v => fdiv v (Fin 2)) <$> p)).

(** [self.predict] is passed as [predict_X]: the method of the subclass. *)
Definition getROC (sk : Sklearn) (predict_X : DataFrame -> result (list float))
    (X : DataFrame) (y : list float) (weight : option (list float))
  : result (list float * list float * float) :=
  predictions ← predict_X X;
  '(fpr, tpr, t) ← roc_curve sk y predictions weight;
  auc ← match roc_auc_score sk y predictions weight with
        | Ok auc => Ok auc
        | Raise _ => np_trapz tpr fpr
        end;
  Ok (fpr, tpr, auc).

(** ** Batched loss: [ParamNN.getTotLoss]

    The builtin [sum] of no losses is the integer [0], which the histories
    hold as [0.0]. *)

Fixpoint loss_loop (T : Torch) (batches : list batch) (losses : list float)
    (g : net T) : list float * net T :=
  match batches with
  | [] => (losses, g)
  | (batch_X, batch_y, batch_w) :: batches' =>
      let '(out, g) := forward T g batch_X in
      let loss := loss_function T out batch_y batch_w in
      loss_loop T batches' (losses ++ [loss]) g
  end.

Definition getTotLoss (T : Torch) (X : list (list float)) (y w : list float)
    (batch_size : Z) (g : net T) : result (float * net T) :=
  batches ← getBatches X y w batch_size None;
  let '(losses, g) := loss_loop T batches [] g in
  Ok (np_sum losses, g).

(** ** The sample summary: [Model.printSampleSummary]

    Printing has no result; what remains is what can raise. *)

Definition printNumAndWeight (y w : list float) : result unit :=
  _ ← np_select w (np_eq y signal);
  _ ← np_select w (np_eq y background);
  Ok ().

(** [int(m*1000)] *)
Definition int_of_mass (m : float) : result unit :=
  match m with
  | Fin _ => Ok ()
  | NaN => Raise ValueError
  | _ => Raise OverflowError
  end.

Definition summary_of (self : Model) (X : list (list float))
    (y w : list float) : result unit :=
  _ ← printNumAndWeight y w;
  for_each
    (fun _ m =>
       col ← last_column X;
       let s := np_eq col m in
       _ ← int_of_mass m;
       y_s ← np_select y s;
       w_s ← np_select w s;
       printNumAndWeight y_s w_s)
    () (train_masses self).

Definition printSampleSummary (self : Model)
    (X_train : list (list float)) (y_train : list float)
    (X_test : list (list float)) (y_test w_train w_test : list float)
  : result unit :=
  _ ← summary_of self X_train y_train w_train;
  summary_of self X_test y_test w_test.

(** ** Training: [ParamNN.train] *)

(** The places of an epoch at which an interrupt signal can arrive. *)
Inductive point : Type :=
  | LoopHead          (** the [for] statement and its progress bar *)
  | InBatch (k : nat) (** during batch [k] of the training pass *)
  | InLossEval        (** while the per-mass losses are computed *)
  | BetweenAppends    (** between the appends to the two histories *)
  | InSchedulerStep   (** in [shouldSchedulerStep] or [scheduler.step] *)
  | InPlot            (** in [updateLossPlot] *)
  | InEarlyStop.      (** in [shouldEarlyStop] *)

#[global] Instance point_eq_dec : EqDecision point.
Proof. solve_decision. Defined.

(** What the surroundings decide during a run: the permutation
    [np.random.permutation] returns in each epoch, and the epoch and place
    at which an interrupt signal arrives, if one does. *)
Record Env : Type := {
  permutation : nat -> nat -> list nat;
  interrupt : option (nat * point)
}.

Definition interrupted (env : Env) (i_epoch : nat) (p : point) : bool :=
  bool_decide (interrupt env = Some (i_epoch, p)).

(** The prepared arrays. *)
Record Data : Type := {
  X_train : list (list float);
  y_train : list float;
  w_train : list float;
  X_test : list (list float);
  y_test : list float;
  w_test : list float
}.

(** What the loop updates: the network, the two histories and
    [self.last_step_epoch]. *)
Record LoopState (T : Torch) : Type := {
  st_net : net T;
  train_loss : list (list float);
  test_loss : list (list float);
  last_step_epoch : Z
}.
Arguments st_net {T} _.
Arguments train_loss {T} _.
Arguments test_loss {T} _.
Arguments last_step_epoch {T} _.
Arguments Build_LoopState {T} _ _ _ _.

(** A statement inside [try]: the state it leaves, and the exception it
    raised, if any.  The state survives the exception. *)
Definition outcome (T : Torch) : Type := LoopState T * option exn.

(** The gradient steps over the batches of one pass. *)
Fixpoint fit_batches (T : Torch) (env : Env) (i_epoch k : nat)
    (batches : list batch) (g : net T) : net T * option exn :=
  match batches with
  | [] => (g, None)
  | b :: batches' =>
      if interrupted env i_epoch (InBatch k) then (g, Some KeyboardInterrupt)
      else fit_batches T env i_epoch (S k) batches' (optimizer_step T g b)
  end.

(** [X[X[:,-1]==mass]] and the like. *)
Definition at_mass (X : list (list float)) (y w : list float) (mass : float)
  : result (list (list float) * list float * list float) :=
  col ← last_column X;
  let s := np_eq col mass in
  X_m ← np_select X s;
  y_m ← np_select y s;
  w_m ← np_select w s;
  Ok (X_m, y_m, w_m).

(** The per-mass losses of the train and the test set. *)
Fixpoint mass_losses (T : Torch) (d : Data) (masses : list float)
    (trl tel : list float) (g : net T)
  : result (list float * list float * net T) :=
  match masses with
  | [] => Ok (trl, tel, g)
  | mass :: masses' =>
      '(X_m, y_m, w_m) ← at_mass (X_train d) (y_train d) (w_train d) mass;
      '(l_train, g) ← getTotLoss T X_m y_m w_m 1024 g;
      '(X_m, y_m, w_m) ← at_mass (X_test d) (y_test d) (w_test d) mass;
      '(l_test, g) ← getTotLoss T X_m y_m w_m 1024 g;
      mass_losses T d masses' (trl ++ [l_train]) (tel ++ [l_test]) g
  end.

(** The statements inside [try]. *)
Definition epoch_body (T : Torch) (env : Env) (self : Model) (d : Data)
    (batch_size : Z) (i_epoch : nat) (s : LoopState T) : outcome T :=
  let ids := permutation env i_epoch (length (X_train d)) in
  match getBatches (X_train d) (y_train d) (w_train d) batch_size
          (Some ids) with
  | Raise e => (s, Some e)
  | Ok batches =>
  match fit_batches T env i_epoch 0 batches (st_net s) with
  | (g, Some e) =>
      (Build_LoopState g (train_loss s) (test_loss s) (last_step_epoch s),
       Some e)
  | (g, None) =>
  let s := Build_LoopState g (train_loss s) (test_loss s) (last_step_epoch s) in
  if interrupted env i_epoch InLossEval then (s, Some KeyboardInterrupt)
  else
  match mass_losses T d (train_masses self) [] [] g with
  | Raise e => (s, Some e)
  | Ok (trl, tel, g) =>
  let s := Build_LoopState g (train_loss s ++ [trl]) (test_loss s)
             (last_step_epoch s) in
  if interrupted env i_epoch BetweenAppends then (s, Some KeyboardInterrupt)
  else
  let s := Build_LoopState g (train_loss s) (test_loss s ++ [tel])
             (last_step_epoch s) in
  if interrupted env i_epoch InSchedulerStep then (s, Some KeyboardInterrupt)
  else
  match shouldSchedulerStep (last_step_epoch s) (train_loss s) with
  | Raise e => (s, Some e)
  | Ok (step, last) =>
  let g := if step then scheduler_step T g else g in
  let s := Build_LoopState g (train_loss s) (test_loss s) last in
  if interrupted env i_epoch InPlot then (s, Some KeyboardInterrupt)
  else (s, None)
  end end end end.

(** The loop over [range(max_epochs)], from epoch [i_epoch] with [n] epochs
    to go, and the [return] after it. *)
Fixpoint epochs (T : Torch) (env : Env) (self : Model) (d : Data)
    (batch_size min_epoch grace_epochs : Z) (tol : float)
    (n i_epoch : nat) (s : LoopState T)
  : result (list (list float) * list (list float)) :=
  match n with
  | O => Ok (train_loss s, test_loss s)
  | S n' =>
      if interrupted env i_epoch LoopHead then Raise KeyboardInterrupt
      else
        match epoch_body T env self d batch_size i_epoch s with
        | (s, Some KeyboardInterrupt) => Ok (train_loss s, test_loss s)
        | (s, Some e) => Raise e
        | (s, None) =>
            if interrupted env i_epoch InEarlyStop then Raise KeyboardInterrupt
            else
              stop ← shouldEarlyStop self (test_loss s) min_epoch
                       grace_epochs tol;
              if stop : bool then Ok (train_loss s, test_loss s)
              else epochs T env self d batch_size min_epoch grace_epochs tol
                     n' (S i_epoch) s
        end
  end.

(** The preparation of the arrays, before the loop. *)
Definition prepare (self : Model) (X_train : DataFrame) (y_train : list float)
    (X_test : DataFrame) (y_test w_train w_test : list float) : result Data :=
  '(X_train, y_train, w_train) ←
    inflateBkgWithMasses self X_train y_train w_train;
  '(X_test, y_test, w_test) ←
    inflateBkgWithMasses self X_test y_test w_test;
  let X_train := to_numpy X_train in
  let X_test := to_numpy X_test in
  w_train ← equaliseWeights self X_train w_train y_train (Some (PyInt 1000));
  w_test ← equaliseWeights self X_test w_test y_test (Some (PyInt 1000));
  _ ← printSampleSummary self X_train y_train X_test y_test w_train w_test;
  Ok {| X_train := X_train; y_train := y_train; w_train := w_train;
        X_test := X_test; y_test := y_test; w_test := w_test |}.

(** [train].  The optimizer and the scheduler are built from [lr] and
    [gamma] inside [g0], the network the loop starts from. *)
Definition train (T : Torch) (env : Env) (self : Model)
    (X_train : DataFrame) (y_train : list float)
    (X_test : DataFrame) (y_test w_train w_test : list float)
    (max_epochs batch_size min_epoch grace_epochs : Z) (tol : float)
    (g0 : net T) : result (list (list float) * list (list float)) :=
  d ← prepare self X_train y_train X_test y_test w_train w_test;
  epochs T env self d batch_size min_epoch grace_epochs tol
    (Z.to_nat max_epochs) 0 (Build_LoopState g0 [] [] 0).

(** ** Vocabulary of the statements *)


Definition nonneg (x : float) : Prop :=
  match x with
  | Fin q => 0 <= q
  | _ => False
  end.


(** The mass of an event of a two-dimensional array: its last entry. *)
Definition mass_of (row : list float) : float := default NaN (last row).

(** The events of class [label] at mass point [m]. *)
Definition group (X : list (list float)) (y : list float) (label m : float)
  : list bool :=
  zip_with andb (np_eq y label) (np_eq (mass_of <$> X) m).



(** [ceil(n / b)] *)
Definition ceil_div (n b : Z) : Z := (- (- n / b))%Z.

(** The events of a sample, and the events of a sequence of batches in the
    order they are yielded. *)
Definition events (X : list (list float)) (y w : list float)
  : list (list float * (float * float)) :=
  zip X (zip y w).

Definition batch_events (batches : list batch)
  : list (list float * (float * float)) :=
  concat ((fun b : batch => events b.1.1 b.1.2 b.2) <$> batches).

(** A sample converted to single precision. *)
Definition single2 (X : list (list float)) : list (list float) :=
  (fun r : list float => to_float32 <$> r) <$> X.

Definition single1 (y : list float) : list float := to_float32 <$> y.

(** ** Sample values *)

(** The rational [n / d] as a [float]. *)
Definition frac (n : Z) (d : positive) : float := Fin (Q2Qc (n # d)).

(** [1 + 2^-30]: a double-precision value that is not a single-precision
    one. *)
Definition one_and_a_bit : float := frac 1073741825 1073741824.

(** The outputs of the network on a sequence of batches, one after the
    other, and the network after the last. *)
Fixpoint forward_each (T : Torch) (bs : list (list (list float))) (g : net T)
  : list (list float) * net T :=
  match bs with
  | [] => ([], g)
  | b :: bs' =>
      let '(out, g) := forward T g b in
      let '(outs, g) := forward_each T bs' g in
      (out :: outs, g)
  end.

(** The single-precision batches of [batch_size] rows an array is cut
    into. *)
Definition row_batches (X : list (list float)) (batch_size : nat)
  : list (list (list float)) :=
  (fun k => single2 (take batch_size (drop (k * batch_size) X)))
    <$> seq 0 (Z.to_nat (ceil_div (Z.of_nat (length X)) (Z.of_nat batch_size))).

(** Loss histories of finite losses. *)
Definition fin_history (hq : list (list Qc)) : list (list float) :=
  (fun r : list Qc => Fin <$> r) <$> hq.

Definition qsum (l : list Qc) : Qc := fold_left Qcplus l 0.

(** The loss of mass point [i] in epoch [e], both counted from 0. *)
Definition loss_of (hq : list (list Qc)) (e i : nat) : option Qc :=
  hq !! e ≫= (fun r => r !! i).

(** Every record holds [k] losses. *)
Definition rectangular (hq : list (list Qc)) (k : nat) : Prop :=
  Forall (fun r => length r = k) hq.

(** The losses of mass point [i] fall strictly during the first [K] epochs
    and stay at the value of epoch [K] (counted from 1) from then on. *)
Definition decreasing_then_flat (hq : list (list Qc)) (i K : nat) : Prop :=
  (forall e1 e2 x y,
     (e1 < e2 < K)%nat ->
     loss_of hq e1 i = Some x -> loss_of hq e2 i = Some y -> y < x)
  /\ (forall e x y,
        (K <= S e)%nat ->
        loss_of hq (K - 1) i = Some x -> loss_of hq e i = Some y -> y = x).

(** [l !! i] is the first least entry of [l]. *)
Definition first_minimum (l : list Qc) (i : nat) : Prop :=
  exists v,
    l !! i = Some v
    /\ (forall x, x ∈ l -> v <= x)
    /\ (forall j x, (j < i)%nat -> l !! j = Some x -> v < x).

Definition Qc_min (a b : Qc) : Qc := if Qc_ltb b a then b else a.
Definition Qc_max (a b : Qc) : Qc := if Qc_ltb a b then b else a.

(** [w[mask] = w[mask] * c] on finite weights, and the summed weight of a
    selection of finite weights. *)
Definition scale_where (mask : list bool) (c : Qc) (qs : list Qc) : list Qc :=
  zip_with (fun (b : bool) q => if b then q * c else q) mask qs.

Definition qsumw (mask : list bool) (qs : list Qc) : Qc :=
  qsum (select mask qs).

(** Two masks that select no common event. *)
Definition disjoint_masks (m1 m2 : list bool) : Prop :=
  Forall2 (fun a b : bool => a && b = false) m1 m2.

#[global] Instance float_eq_dec : EqDecision float.
Proof. solve_decision. Defined.



(** A sample of two mass points, [1/2] and [1], in which no signal event
    has mass [1]. *)
Definition two_masses : Model := {| train_masses := [frac 1 2; frac 1 1] |}.




(** The places inside the [try] statement of the epoch loop. *)
Definition in_try (p : point) : bool :=
  match p with
  | LoopHead | InEarlyStop => false
  | _ => true
  end.

(** The places before the histories are appended to. *)
Definition before_appends (p : point) : bool :=
  match p with
  | InBatch _ | InLossEval => true
  | _ => false
  end.

(** The state in which the loop enters epoch [k], when it gets there. *)
Fixpoint state_at (T : Torch) (env : Env) (self : Model) (d : Data)
    (batch_size min_epoch grace_epochs : Z) (tol : float)
    (s0 : LoopState T) (k : nat) : option (LoopState T) :=
  match k with
  | O => Some s0
  | S k' =>
      match state_at T env self d batch_size min_epoch grace_epochs tol s0 k' with
      | None => None
      | Some s =>
          if interrupted env k' LoopHead then None
          else
            match epoch_body T env self d batch_size k' s with
            | (s', None) =>
                if interrupted env k' InEarlyStop then None
                else
                  match shouldEarlyStop self (test_loss s') min_epoch
                          grace_epochs tol with
                  | Ok false => Some s'
                  | _ => None
                  end
            | _ => None
            end
      end
  end.

(** [MSELoss]: the mean of [weight * (input - target) ** 2]. *)
Definition MSELoss (input target weight : list float) : float :=
  let sq := zip_with (fun x t => fmul (fsub x t) (fsub x t)) input target in
  fdiv (np_sum (zip_with fmul weight sq))
       (Fin (Z2Qc (Z.of_nat (length input)))).

(** A network that answers [1/2] for every row and learns nothing. *)
Definition still_torch : Torch := {|
  net := unit;
  forward := fun g X => ((fun _ => frac 1 2) <$> X, g);
  loss_function := MSELoss;
  optimizer_step := fun g _ => g;
  scheduler_step := fun g => g
|}.

(** A sample of one mass point with one signal and one background event. *)
Definition one_mass : Model := {| train_masses := [frac 1 2] |}.

Definition tiny_frame : DataFrame := {|
  columns := ["pt"; "mass"];
  rows := [ <["pt" := frac 1 1]> (<["mass" := frac 1 2]> ∅);
            <["pt" := frac 2 1]> (<["mass" := frac 1 1]> ∅) ]
|}.

Definition tiny_y : list float := [signal; background].
Definition tiny_w : list float := [frac 1 1; frac 3 1].

(** No shuffling, and an interrupt signal at [i], if any. *)
Definition quiet_env (i : option (nat * point)) : Env :=
  {| permutation := fun _ n => seq 0 n; interrupt := i |}.

(** Three epochs on the tiny sample, with an interrupt at [i]. *)
Definition tiny_run (i : option (nat * point))
  : result (list (list float) * list (list float)) :=
  train still_torch (quiet_env i) one_mass tiny_frame tiny_y tiny_frame tiny_y
    tiny_w tiny_w 3 32 10 5 (frac 1 100) ().

(** A sample of the two mass points with a signal and a background event at
    each. *)
Definition fair_X : list (list float) :=
  [[frac 3 1; frac 1 2]; [frac 3 1; frac 1 1];
   [frac 0 1; frac 1 2]; [frac 0 1; frac 1 1]].

Definition fair_y : list float := [signal; signal; background; background].

Definition fair_w : list float := [frac 1 1; frac 3 1; frac 2 1; frac 5 1].

(** Ten epochs of one mass point: the loss falls to 5 in epoch 5 and stays
    there. *)
Definition flat_history : list (list Qc) :=
  (fun n : Z => [Z2Qc n]) <$> [9; 8; 7; 6; 5; 5; 5; 5; 5; 5]%Z.

(** A metrics library whose [roc_auc_score] fails. *)
Definition failing_auc : Sklearn := {|
  roc_curve := fun _ _ _ =>
    Ok ([frac 0 1; frac 1 2; frac 1 1], [frac 0 1; frac 1 1; frac 1 1],
        [frac 2 1; frac 1 1; frac 0 1]);
  roc_auc_score := fun _ _ _ => Raise ValueError
|}.

(** * The rest of [models.py] *)

(** ** Manual reweighting: [Model.reweightMass] *)

(** [w[mask] = w[mask] * sf], the mask being evaluated by [mk] each time it
    is written in the source. *)
Definition scale_selected (mk : result (list bool)) (sf : pyval)
    (w : list float) : result (list float) :=
  m1 ← mk;
  sel ← np_select w m1;
  m2 ← mk;
  np_assign w m2 (np_scale sel sf).

Definition reweightMass (X : list (list float)) (y w : list float)
    (m : float) (sf : pyval) : result (list float) :=
  w ← scale_selected (class_mass_mask X y signal m) sf w;
  scale_selected (class_mass_mask X y background m) sf w.

(** ** Random draws

    [np.random.choice] draws positions of its population and returns the
    entries at them.  The positions drawn are a parameter of the model:
    without replacement they are the first [size] entries of
    [permutation(pop_size)], with replacement they are the [size] values of
    [randint(0, pop_size, size)]. *)

Definition choice_without_replacement {A : Type} (a : list A) (size : nat)
    (permutation : list nat) : result (list A) :=
  if decide (length a < size)%nat then Raise ValueError
  else np_take a (take size permutation).

Definition choice_with_replacement {A : Type} (a : list A) (size : nat)
    (randint : list nat) : result (list A) :=
  if decide (length a = 0%nat /\ size ≠ 0%nat) then Raise ValueError
  else np_take a randint.

(** ** Signal culling: [Model.cullSignal] *)

(** [np.arange(n)] *)
Definition np_arange (n : nat) : list nat := seq 0 n.

(** [permutation n] is the value of [permutation(n)] inside
    [np.random.choice]. *)
Definition cullSignal (permutation : nat -> list nat) (X : list (list float))
    (y w : list float)
  : result (list (list float) * list float * list float) :=
  let nsig := count_true (np_eq y signal) in
  let nbkg := count_true (np_eq y background) in
  signal_indices ← np_select (np_arange (nsig + nbkg)) (np_eq y signal);
  bkg_indices ← np_select (np_arange (nsig + nbkg)) (np_eq y background);
  keep_signal_indices ←
    choice_without_replacement signal_indices nbkg
      (permutation (length signal_indices));
  selection ← np_concatenate [bkg_indices; keep_signal_indices];
  X_sel ← np_take X selection;
  y_sel ← np_take y selection;
  w_sel ← np_take w selection;
  Ok (X_sel, y_sel, w_sel).

(** ** Background shuffling: [Model.shuffleBkg] *)

(** A row with its last entry replaced. *)
Definition set_last (row : list float) (v : float) : list float :=
  removelast row ++ [v].

(** [X[mask,-1] = vals]: the last entry of the selected rows is overwritten,
    in order. *)
Fixpoint assign_last (mask : list bool) (X : list (list float))
    (vals : list float) : list (list float) :=
  match mask, X with
  | b :: mask', row :: X' =>
      if b then
        match vals with
        | v :: vals' => set_last row v :: assign_last mask' X' vals'
        | [] => row :: assign_last mask' X' []
        end
      else row :: assign_last mask' X' vals
  | _, _ => X
  end.

Definition np_assign_last (X : list (list float)) (mask : list bool)
    (vals : list float) : result (list (list float)) :=
  if decide (length mask = length X) then
    if decide (Forall (fun r => r ≠ []) X) then
      if decide (length vals = length (select mask X)) then
        Ok (assign_last mask X vals)
      else Raise ValueError
    else Raise IndexError
  else Raise IndexError.

(** One statement of [shuffleBkg]:
    [X[y==0,-1] = np.random.choice(self.train_masses, len(X[y==0][:,-1]))],
    [randint] being the positions drawn. *)
Definition shuffle_masses (self : Model) (randint : list nat)
    (X : list (list float)) (y : list float) : result (list (list float)) :=
  X_bkg ← np_select X (np_eq y background);
  col ← last_column X_bkg;
  vals ← choice_with_replacement (train_masses self) (length col) randint;
  np_assign_last X (np_eq y background) vals.

Definition shuffleBkg (self : Model) (randint_train randint_test : list nat)
    (X_train : list (list float)) (y_train : list float)
    (X_test : list (list float)) (y_test : list float)
  : result (list (list float) * list (list float)) :=
  X_train ← shuffle_masses self randint_train X_train y_train;
  X_test ← shuffle_masses self randint_test X_test y_test;
  Ok (X_train, X_test).

(** ** The tree ensemble: [BDT]

    What [xgboost] contributes.  A value of [booster] stands for the state
    of [self.model]. *)

Record Xgboost : Type := {
  booster : Type;
  (** [self.model.fit(X, y, sample_weight=w)] *)
  fit :
    booster -> list (list float) -> list float -> list float -> result booster;
  (** [self.model.predict_proba(X)] *)
  predict_proba : booster -> list (list float) -> result (list (list float))
}.

Definition BDT_predict (xgb : Xgboost) (X : DataFrame) (b : booster xgb)
  : result (list float) :=
  let X := to_numpy X in
  proba ← predict_proba xgb b X;
  column 1 proba.


(** ** Vocabulary of the further statements *)

(** Does [reweightMass] at mass point [m] rescale the weight of an event
    with features [row] and label [label]? *)
Definition rescaled (m : float) (row : list float) (label : float) : bool :=
  feqb (mass_of row) m && (feqb label signal || feqb label background).

(** A label is that of one of the two classes. *)
Definition binary (label : float) : Prop :=
  label = signal \/ label = background.

(** [X'] is [X] with the mass of every background event replaced by a
    configured mass point, and nothing else changed. *)
Definition reshuffled (self : Model) (X : list (list float)) (y : list float)
    (X' : list (list float)) : Prop :=
  length X' = length X
  /\ forall i row label,
       X !! i = Some row -> y !! i = Some label ->
       exists row',
         X' !! i = Some row'
         /\ if feqb label background
            then removelast row' = removelast row
                 /\ mass_of row' ∈ train_masses self
            else row' = row.





(** Histories of as many records each, every record holding one loss per
    mass point. *)
Definition well_shaped (T : Torch) (self : Model) (s : LoopState T) : Prop :=
  length (train_loss s) = length (test_loss s)
  /\ Forall (fun r => length r = length (train_masses self)) (train_loss s)
  /\ Forall (fun r => length r = length (train_masses self)) (test_loss s).

(** The area under the polygon through the points [(x_i, y_i)], by the
    trapezoidal rule. *)
Fixpoint trapezoid (xs ys : list Qc) : Qc :=
  match xs, ys with
  | x0 :: xs', y0 :: ys' =>
      match xs', ys' with
      | x1 :: _, y1 :: _ => (x1 - x0) * (y1 + y0) / 2 + trapezoid xs' ys'
      | _, _ => 0
      end
  | _, _ => 0
  end.

(** A list that does not decrease. *)
Definition nondecreasing (xs : list Qc) : Prop :=
  forall i x x', xs !! i = Some x -> xs !! S i = Some x' -> x <= x'.


(** ** Further sample values *)

(** The weights of the fair sample, as rationals. *)
Definition fair_qs : list Qc := [Z2Qc 1; Z2Qc 3; Z2Qc 2; Z2Qc 5].

(** A sample of three signal events and one background event. *)
Definition cull_X : list (list float) :=
  [[frac 1 1; frac 1 2]; [frac 2 1; frac 1 2];
   [frac 3 1; frac 1 1]; [frac 4 1; frac 1 1]].

Definition cull_y : list float := [signal; background; signal; signal].

Definition cull_w : list float := [frac 1 1; frac 2 1; frac 3 1; frac 4 1].

(** A draw that brings the positions into reverse order. *)
Definition backwards (n : nat) : list nat := reverse (seq 0 n).

(** A classifier that learns nothing and gives even odds. *)
Definition even_odds : Xgboost := {|
  booster := unit;
  fit := fun b _ _ _ => Ok b;
  predict_proba := fun _ X => Ok ((fun _ => [frac 1 2; frac 1 2]) <$> X)
|}.

(** A network whose loss is [NaN]. *)
Definition nan_torch : Torch := {|
  net := unit;
  forward := fun g X => ((fun _ => frac 1 2) <$> X, g);
  loss_function := fun _ _ _ => NaN;
  optimizer_step := fun g _ => g;
  scheduler_step := fun g => g
|}.



(** * Properties *)

Lemma bind_Ok {A B : Type} (a : A) (k : A -> result B) : Ok a ≫= k = k a.
Proof. done. Qed.

(** ** Floating-point comparisons *)

Lemma Qc_eqb_eq (a b : Qc) : Qc_eqb a b = true <-> a = b.
Proof.
  unfold Qc_eqb. split.
  - intros H. apply Qc_is_canon, Qeq_bool_eq, H.
  - intros ->. apply Qeq_bool_refl.
Qed.

Lemma Qc_ltb_lt (a b : Qc) : Qc_ltb a b = true <-> a < b.
Proof.
  unfold Qc_ltb. destruct (Qclt_le_dec a b) as [H|H]; split; intros; try done.
  exfalso. by apply (Qcle_not_lt _ _ H).
Qed.

Lemma feqb_eq (x y : float) : feqb x y = true -> x = y.
Proof.
  destruct x, y; simpl; try done. intros H. f_equal. by apply Qc_eqb_eq.
Qed.



Lemma signal_not_background : feqb signal background = false.
Proof. reflexivity. Qed.

(** ** Masks, selection and counting *)

Lemma count_true_cons (b : bool) (m : list bool) :
  count_true (b :: m) = ((if b then 1 else 0) + count_true m)%nat.
Proof.
  unfold count_true. destruct b.
  - by rewrite filter_cons_True.
  - by rewrite filter_cons_False.
Qed.

Section masks.
Context {A : Type}.
Implicit Types (mask : list bool) (arr : list A).

Lemma select_nil_r mask : select mask (@nil A) = [].
Proof. by destruct mask as [|[] ?]. Qed.


Lemma length_select mask arr :
  length mask = length arr -> length (select mask arr) = count_true mask.
Proof.
  revert arr. induction mask as [|b mask IH]; intros [|x arr] Hlen;
    simplify_eq; [done|].
  rewrite count_true_cons. simpl in *. destruct b; simpl; rewrite IH; lia.
Qed.

Lemma np_select_ok arr mask :
  length mask = length arr -> np_select arr mask = Ok (select mask arr).
Proof. intros H. unfold np_select. by rewrite decide_True. Qed.

End masks.


Lemma count_true_all (m : list bool) :
  Forall (fun b => b = true) m -> count_true m = length m.
Proof.
  induction 1 as [|b m -> _ IH]; [done|].
  rewrite count_true_cons, IH. done.
Qed.


Lemma length_np_eq (arr : list float) (v : float) :
  length (np_eq arr v) = length arr.
Proof. unfold np_eq. by rewrite length_fmap. Qed.





(** ** Background inflation *)


Lemma df_column_set_column (c : string) (v : float) (X : DataFrame) :
  df_column c (set_column c v X) = (fun _ => v) <$> rows X.
Proof.
  unfold df_column, set_column. simpl. rewrite <- list_fmap_compose.
  apply list_fmap_ext. intros i r _. simpl. by rewrite lookup_insert_eq.
Qed.









(** ** Ranges and slices *)

Lemma ceil_div_spec (n b : Z) :
  (0 < b)%Z -> ((n + b - 1) / b = ceil_div n b)%Z.
Proof.
  intros Hb. unfold ceil_div.
  pose proof (Z.div_mod (- n) b ltac:(lia)) as H1.
  pose proof (Z.mod_pos_bound (- n) b Hb) as H2.
  symmetry. apply (Z.div_unique_pos _ _ _ (b - 1 - (- n) mod b)%Z); lia.
Qed.

Lemma py_range_pos (stop step : Z) :
  (0 < step)%Z ->
  py_range stop step
  = Ok ((fun k => (Z.of_nat k * step)%Z)
          <$> seq 0 (Z.to_nat (ceil_div stop step))).
Proof.
  intros Hstep. unfold py_range.
  destruct (Z.eqb_spec step 0) as [->|_]; [lia|].
  destruct (Z.ltb_spec 0 step) as [_|?]; [|lia].
  by rewrite ceil_div_spec.
Qed.

Lemma py_slice_take_drop {A : Type} (l : list A) (a c : Z) :
  (0 <= a)%Z -> (0 <= c)%Z ->
  py_slice l (Some a) (Some (a + c)%Z)
  = take (Z.to_nat c) (drop (Z.to_nat a) l).
Proof.
  intros Ha Hc. unfold py_slice, clamp_index. simpl.
  destruct (Z.ltb_spec a 0) as [?|_]; [lia|].
  destruct (Z.ltb_spec (a + c) 0) as [?|_]; [lia|].
  destruct (decide (Z.of_nat (length l) <= a)%Z) as [Hge|Hlt].
  - rewrite !drop_ge by lia. by rewrite !take_nil.
  - replace (Z.to_nat (Z.min a (Z.of_nat (length l)))) with (Z.to_nat a) by lia.
    destruct (decide (a + c <= Z.of_nat (length l))%Z).
    + f_equal. lia.
    + rewrite !take_ge; [done| |]; rewrite length_drop; lia.
Qed.

(** Consecutive chunks of [b] elements, put together again. *)
Lemma concat_chunks {A : Type} (l : list A) (b j k : nat) :
  concat ((fun i => take b (drop (i * b) l)) <$> seq j k)
  = take (k * b) (drop (j * b) l).
Proof.
  revert j. induction k as [|k IH]; intros j; csimpl; [done|].
  rewrite IH. replace (S j * b)%nat with (j * b + b)%nat by lia.
  rewrite <- drop_drop. apply take_take_drop.
Qed.

Lemma ceil_div_covers (n b : nat) :
  (0 < b)%nat ->
  (n <= Z.to_nat (ceil_div (Z.of_nat n) (Z.of_nat b)) * b)%nat.
Proof.
  intros Hb. rewrite <- ceil_div_spec by lia.
  pose proof (Z.div_mod (Z.of_nat n + Z.of_nat b - 1) (Z.of_nat b) ltac:(lia)).
  pose proof (Z.mod_pos_bound (Z.of_nat n + Z.of_nat b - 1) (Z.of_nat b)
                ltac:(lia)).
  assert (0 <= (Z.of_nat n + Z.of_nat b - 1) / Z.of_nat b)%Z
    by (apply Z.div_pos; lia).
  nia.
Qed.

Lemma concat_chunks_fmap {A C : Type} (g : A -> C) (l : list A) (b j k : nat) :
  concat ((fun i => g <$> take b (drop (i * b) l)) <$> seq j k)
  = g <$> take (k * b) (drop (j * b) l).
Proof.
  rewrite <- concat_chunks. generalize (seq j k). intros ks.
  induction ks as [|i ks IH]; csimpl; [done|]. by rewrite fmap_app, IH.
Qed.

(** ** Batching *)

Lemma tensor2_ok (b : list (list float)) :
  Forall (fun r => r ≠ []) b -> tensor2 b = Ok (single2 b).
Proof. intros H. unfold tensor2. by rewrite decide_True. Qed.

Lemma Forall_py_slice {A : Type} (P : A -> Prop) (l : list A)
    (start stop : option Z) :
  Forall P l -> Forall P (py_slice l start stop).
Proof. intros H. unfold py_slice. by apply Forall_take, Forall_drop. Qed.

Lemma slices_ok (X : list (list float)) (y w : list float) (batch_size : Z)
    (starts : list Z) :
  Forall (fun r => r ≠ []) X ->
  slices X y w batch_size starts
  = Ok ((fun i =>
           let stop := Some (i + batch_size)%Z in
           (single2 (py_slice X (Some i) stop),
            single1 (py_slice y (Some i) stop),
            single1 (py_slice w (Some i) stop))) <$> starts).
Proof.
  intros HX. induction starts as [|i starts IH]; csimpl; [done|].
  rewrite tensor2_ok by (by apply Forall_py_slice). csimpl.
  rewrite IH. done.
Qed.

(** The batches cut from three arrays, in terms of [take] and [drop]. *)
Lemma slices_chunks (X : list (list float)) (y w : list float) (b K : nat) :
  (fun i : Z =>
     let stop := Some (i + Z.of_nat b)%Z in
     ((single2 (py_slice X (Some i) stop),
       single1 (py_slice y (Some i) stop),
       single1 (py_slice w (Some i) stop)) : batch))
    <$> ((fun k => (Z.of_nat k * Z.of_nat b)%Z) <$> seq 0 K)
  = (fun k : nat =>
       (single2 (take b (drop (k * b) X)),
        single1 (take b (drop (k * b) y)),
        single1 (take b (drop (k * b) w)))) <$> seq 0 K.
Proof.
  rewrite <- list_fmap_compose. apply list_fmap_ext. intros _ k _. simpl.
  rewrite !py_slice_take_drop by lia.
  by replace (Z.to_nat (Z.of_nat k * Z.of_nat b)) with (k * b)%nat by lia;
     rewrite Nat2Z.id.
Qed.

Lemma events_take (X : list (list float)) (y w : list float) (n : nat) :
  events (take n X) (take n y) (take n w) = take n (events X y w).
Proof. unfold events. by rewrite <- !zip_with_take. Qed.

Lemma events_drop (X : list (list float)) (y w : list float) (n : nat) :
  events (drop n X) (drop n y) (drop n w) = drop n (events X y w).
Proof. unfold events. by rewrite <- !zip_with_drop. Qed.

Lemma events_single (X : list (list float)) (y w : list float) :
  events (single2 X) (single1 y) (single1 w)
  = (fun e : list float * (float * float) =>
       (to_float32 <$> e.1, (to_float32 e.2.1, to_float32 e.2.2)))
      <$> events X y w.
Proof.
  unfold events, single2, single1. revert y w.
  induction X as [|r X IH]; intros [|a y] [|c w]; csimpl; try done.
  by rewrite IH.
Qed.

Lemma length_events (X : list (list float)) (y w : list float) :
  length y = length X -> length w = length X ->
  length (events X y w) = length X.
Proof. intros Hy Hw. unfold events. rewrite !length_zip_with. lia. Qed.

(** What the batches cut from three arrays of one length contain. *)
Lemma chunks_contents (X : list (list float)) (y w : list float) (b K : nat) :
  (length X <= K * b)%nat ->
  length y = length X -> length w = length X ->
  let batches : list batch :=
    (fun k : nat =>
       (single2 (take b (drop (k * b) X)),
        single1 (take b (drop (k * b) y)),
        single1 (take b (drop (k * b) w)))) <$> seq 0 K in
  length batches = K
  /\ concat ((fun b : batch => b.1.1) <$> batches) = single2 X
  /\ concat ((fun b : batch => b.1.2) <$> batches) = single1 y
  /\ concat ((fun b : batch => b.2) <$> batches) = single1 w
  /\ batch_events batches = events (single2 X) (single1 y) (single1 w).
Proof.
  intros HK Hy Hw batches. unfold batches, batch_events.
  rewrite length_fmap, length_seq, <- !list_fmap_compose.
  split; [done|]. unfold compose. simpl.
  split; [|split; [|split]].
  - unfold single2. rewrite (concat_chunks_fmap _ X b 0 K).
    by rewrite drop_0, take_ge.
  - unfold single1. rewrite (concat_chunks_fmap _ y b 0 K).
    rewrite drop_0, take_ge; [done|lia].
  - unfold single1. rewrite (concat_chunks_fmap _ w b 0 K).
    rewrite drop_0, take_ge; [done|lia].
  - rewrite (events_single X).
    rewrite <- (take_ge (events X y w) (K * b))
      by (rewrite length_events; lia).
    rewrite <- (drop_0 (events X y w)).
    change 0%nat with (0 * b)%nat.
    rewrite <- concat_chunks_fmap. f_equal.
    apply list_fmap_ext. intros _ k _.
    by rewrite events_single, events_take, events_drop.
Qed.

(** ** Indexing by an array of indices *)

Section np_take.
Context {A : Type}.
Implicit Types (arr l : list A) (ids : list nat).

Lemma np_take_cons_inv arr i ids l :
  np_take arr (i :: ids) = Ok l ->
  exists a l0, arr !! i = Some a /\ np_take arr ids = Ok l0 /\ l = a :: l0.
Proof.
  simpl. destruct (arr !! i) as [a|]; [|done].
  destruct (np_take arr ids) as [l0|e]; csimpl; [|done].
  intros [= <-]. by exists a, l0.
Qed.

Lemma np_take_cons arr i ids a l0 :
  arr !! i = Some a -> np_take arr ids = Ok l0 ->
  np_take arr (i :: ids) = Ok (a :: l0).
Proof. intros Ha Hl. simpl. by rewrite Ha, Hl. Qed.

Lemma np_take_perm arr ids ids' :
  ids ≡ₚ ids' ->
  forall l, np_take arr ids = Ok l ->
            exists l', np_take arr ids' = Ok l' /\ l ≡ₚ l'.
Proof.
  induction 1 as [|i ids ids' _ IH|i j ids|ids1 ids2 ids3 _ IH1 _ IH2];
    intros l Hl.
  - by exists l.
  - apply np_take_cons_inv in Hl as (a & l0 & Ha & Hl0 & ->).
    destruct (IH _ Hl0) as (l' & Hl' & Hperm).
    exists (a :: l'). split; [by apply np_take_cons|by constructor].
  - apply np_take_cons_inv in Hl as (a & l1 & Ha & Hl1 & ->).
    apply np_take_cons_inv in Hl1 as (c & l0 & Hc & Hl0 & ->).
    exists (c :: a :: l0). split; [|by constructor].
    by repeat apply np_take_cons.
  - destruct (IH1 _ Hl) as (l2 & Hl2 & Hp12).
    destruct (IH2 _ Hl2) as (l3 & Hl3 & Hp23).
    exists l3. split; [done|by etrans].
Qed.

Lemma np_take_seq arr k n :
  (k + n <= length arr)%nat ->
  np_take arr (seq k n) = Ok (take n (drop k arr)).
Proof.
  revert k. induction n as [|n IH]; intros k Hle; [done|].
  destruct (lookup_lt_is_Some_2 arr k ltac:(lia)) as [a Ha].
  simpl seq. erewrite np_take_cons; [|done|by apply IH; lia].
  by rewrite (drop_S _ _ _ Ha).
Qed.

Lemma np_take_all arr : np_take arr (seq 0 (length arr)) = Ok arr.
Proof. rewrite np_take_seq by lia. by rewrite drop_0, firstn_all. Qed.

Lemma np_take_Forall (P : A -> Prop) arr ids l :
  Forall P arr -> np_take arr ids = Ok l -> Forall P l.
Proof.
  intros Harr. revert l. induction ids as [|i ids IH]; intros l Hl.
  - by injection Hl as <-.
  - apply np_take_cons_inv in Hl as (a & l0 & Ha & Hl0 & ->).
    constructor; [|by apply IH].
    by eapply Forall_lookup_1 in Harr.
Qed.

Lemma np_take_length arr ids l :
  np_take arr ids = Ok l -> length l = length ids.
Proof.
  revert l. induction ids as [|i ids IH]; intros l Hl.
  - by injection Hl as <-.
  - apply np_take_cons_inv in Hl as (a & l0 & Ha & Hl0 & ->).
    simpl. by rewrite (IH l0).
Qed.
End np_take.

(** Indexing the events of a sample is indexing its three arrays. *)
Lemma np_take_events (X : list (list float)) (y w : list float)
    (ids : list nat) (E : list (list float * (float * float))) :
  np_take (events X y w) ids = Ok E ->
  exists Xs ys ws,
    np_take X ids = Ok Xs /\ np_take y ids = Ok ys /\ np_take w ids = Ok ws
    /\ E = events Xs ys ws.
Proof.
  revert E. induction ids as [|i ids IH]; intros E HE.
  - injection HE as <-. by exists [], [], [].
  - apply np_take_cons_inv in HE as ([r [a c]] & E0 & He & HE0 & ->).
    destruct (IH _ HE0) as (Xs & ys & ws & HX & Hy & Hw & ->).
    unfold events in He.
    apply lookup_zip_with_Some in He as (r' & ac & [= <- <-] & Hr & Hac).
    apply lookup_zip_with_Some in Hac as (a' & c' & [= <- <-] & Ha & Hc).
    exists (r :: Xs), (a :: ys), (c :: ws).
    by repeat split; try apply np_take_cons.
Qed.

(** ** The batches of [getBatches] *)

(** [getBatches] on arrays of one length, whatever the order
    [X_sh, y_sh, w_sh] the arrays were brought into. *)
Lemma getBatches_slices (X : list (list float)) (y w : list float)
    (batch_size : Z) (n : nat) :
  (0 < batch_size)%Z ->
  length X = n -> length y = n -> length w = n ->
  Forall (fun r => r ≠ []) X ->
  exists batches,
    (starts ← py_range (Z.of_nat n) batch_size;
     slices X y w batch_size starts) = Ok batches
    /\ Z.of_nat (length batches) = ceil_div (Z.of_nat n) batch_size
    /\ concat ((fun b : batch => b.1.1) <$> batches) = single2 X
    /\ concat ((fun b : batch => b.1.2) <$> batches) = single1 y
    /\ concat ((fun b : batch => b.2) <$> batches) = single1 w
    /\ batch_events batches = events (single2 X) (single1 y) (single1 w).
Proof.
  intros HB HX Hy Hw Hrows.
  rewrite py_range_pos by done. csimpl. rewrite slices_ok by done.
  set (b := Z.to_nat batch_size).
  set (K := Z.to_nat (ceil_div (Z.of_nat n) batch_size)).
  replace batch_size with (Z.of_nat b) by lia.
  assert (length X <= K * b)%nat as HK.
  { rewrite HX. unfold K. replace batch_size with (Z.of_nat b) by lia.
    apply ceil_div_covers. lia. }
  eexists. split; [reflexivity|].
  rewrite slices_chunks.
  destruct (chunks_contents X y w b K HK) as (Hlen & HcX & Hcy & Hcw & Hev);
    [congruence..|].
  rewrite Hlen. repeat split; try done.
  replace (Z.of_nat b) with batch_size by lia. unfold K.
  rewrite Z2Nat.id; [done|].
  rewrite <- ceil_div_spec by done. apply Z.div_pos; lia.
Qed.

(** C3, as amended.  For arrays of one length [N] and a positive batch size
    [B], [getBatches] without shuffling yields [ceil(N/B)] batches whose
    concatenation, in order, is [X], [y] and [w] with every entry converted
    to single precision; with shuffling by a permutation of the indices it
    yields as many batches, and the events of all batches together are a
    permutation of the events of the input converted to single precision:
    a row of [X] stays with its label and its weight. *)
Theorem getBatches_single_precision (X : list (list float)) (y w : list float)
    (batch_size : Z) :
  (0 < batch_size)%Z ->
  length y = length X ->
  length w = length X ->
  Forall (fun r => r ≠ []) X ->
  (exists batches,
      getBatches X y w batch_size None = Ok batches
      /\ Z.of_nat (length batches)
         = ceil_div (Z.of_nat (length X)) batch_size
      /\ concat ((fun b : batch => b.1.1) <$> batches) = single2 X
      /\ concat ((fun b : batch => b.1.2) <$> batches) = single1 y
      /\ concat ((fun b : batch => b.2) <$> batches) = single1 w)
  /\ (forall shuffle_ids,
        shuffle_ids ≡ₚ seq 0 (length X) ->
        exists batches,
          getBatches X y w batch_size (Some shuffle_ids) = Ok batches
          /\ Z.of_nat (length batches)
             = ceil_div (Z.of_nat (length X)) batch_size
          /\ batch_events batches
             ≡ₚ events (single2 X) (single1 y) (single1 w)).
Proof.
  intros HB Hy Hw Hrows. split.
  - destruct (getBatches_slices X y w batch_size (length X) HB)
      as (batches & Hb & Hlen & HcX & Hcy & Hcw & _); try done.
    exists batches. by repeat split.
  - intros ids Hperm.
    pose proof (np_take_all (events X y w)) as Hall.
    rewrite length_events in Hall by done.
    destruct (np_take_perm _ _ _ (symmetry Hperm) _ Hall) as (E & HE & HpE).
    apply np_take_events in HE as (Xs & ys & ws & HXs & Hys & Hws & ->).
    assert (length ids = length X) as Hids
      by (by rewrite Hperm, length_seq).
    destruct (getBatches_slices Xs ys ws batch_size (length X) HB)
      as (batches & Hb & Hlen & _ & _ & _ & Hev).
    { by rewrite (np_take_length _ _ _ HXs). }
    { by rewrite (np_take_length _ _ _ Hys). }
    { by rewrite (np_take_length _ _ _ Hws). }
    { by eapply np_take_Forall. }
    exists batches. unfold getBatches. rewrite HXs, Hys, Hws. csimpl.
    split; [done|]. split; [done|].
    rewrite Hev, !events_single. by apply fmap_Permutation.
Qed.

(** C3, as stated, fails: a batch holds single-precision values, and
    [1 + 2^-30] is not one. *)
Lemma getBatches_not_exact :
  exists batches,
    getBatches [[one_and_a_bit]] [Fin 1] [Fin 1] 1 None = Ok batches
    /\ concat ((fun b : batch => b.1.1) <$> batches) ≠ [[one_and_a_bit]].
Proof.
  eexists. split; [vm_compute; reflexivity|].
  vm_compute. intros [= H]. 
Qed.

(** ** Prediction *)

Lemma predict_loop_ok (T : Torch) (X : list (list float)) (batch_size : Z)
    (starts : list Z) (predictions : list (list float)) (g : net T) :
  Forall (fun r => r ≠ []) X ->
  let bs := (fun i => single2 (py_slice X (Some i) (Some (i + batch_size)%Z)))
              <$> starts in
  predict_loop T X batch_size starts predictions g
  = Ok (predictions ++ (forward_each T bs g).1, (forward_each T bs g).2).
Proof.
  intros HX. revert predictions g.
  induction starts as [|i starts IH]; intros predictions g; csimpl.
  - by rewrite app_nil_r.
  - rewrite tensor2_ok by (by apply Forall_py_slice). csimpl.
    destruct (forward T g _) as [out g1]. rewrite IH.
    destruct (forward_each T _ g1) as [outs g2]. simpl.
    by rewrite <- app_assoc.
Qed.

Lemma forward_each_length (T : Torch) (bs : list (list (list float)))
    (g : net T) :
  (forall g b, length (forward T g b).1 = length b) ->
  length (concat (forward_each T bs g).1) = length (concat bs)
  /\ length (forward_each T bs g).1 = length bs.
Proof.
  intros Hlen. revert g. induction bs as [|b bs IH]; intros g; [done|].
  simpl. specialize (Hlen g b). destruct (forward T g b) as [out g1].
  specialize (IH g1). destruct (forward_each T bs g1) as [outs g2].
  simpl in *. rewrite !length_app. lia.
Qed.

Lemma to_numpy_rows (X : DataFrame) :
  columns X ≠ [] -> Forall (fun r => r ≠ []) (to_numpy X).
Proof.
  intros Hc. unfold to_numpy. apply Forall_fmap, Forall_true. intros r. simpl.
  destruct (columns X); [done|]. by rewrite fmap_cons.
Qed.

Lemma length_to_numpy (X : DataFrame) : length (to_numpy X) = length (rows X).
Proof. unfold to_numpy. by rewrite length_fmap. Qed.

Lemma row_batches_concat (X : list (list float)) (b : nat) :
  (0 < b)%nat -> concat (row_batches X b) = single2 X.
Proof.
  intros Hb. unfold row_batches, single2.
  rewrite (concat_chunks_fmap _ X b 0), drop_0, take_ge; [done|].
  by apply ceil_div_covers.
Qed.

(** C10.  For a network that returns one output per row of a batch, a batch
    size [B > 0] and a data frame with at least one column: on a frame with
    rows, [predict] returns the outputs of the network on the consecutive
    batches of [B] rows, in order, which is one prediction per row; on a
    frame without rows the concatenation raises [ValueError]. *)
Theorem predict_one_per_row (T : Torch) (X : DataFrame) (batch_size : Z)
    (g : net T) :
  (0 < batch_size)%Z ->
  columns X ≠ [] ->
  (forall g b, length (forward T g b).1 = length b) ->
  let outs :=
    forward_each T (row_batches (to_numpy X) (Z.to_nat batch_size)) g in
  (rows X ≠ [] ->
   predict T X batch_size g = Ok (concat outs.1, outs.2)
   /\ length (concat outs.1) = length (rows X))
  /\ (rows X = [] -> predict T X batch_size g = Raise ValueError).
Proof.
  intros HB Hcols Hnet outs.
  pose proof (to_numpy_rows X Hcols) as Hrows.
  pose proof (length_to_numpy X) as Hlen.
  assert ((fun i => single2 (py_slice (to_numpy X) (Some i)
                               (Some (i + batch_size)%Z)))
            <$> ((fun k => (Z.of_nat k * batch_size)%Z)
                   <$> seq 0 (Z.to_nat (ceil_div
                                (Z.of_nat (length (to_numpy X))) batch_size)))
          = row_batches (to_numpy X) (Z.to_nat batch_size)) as Hbs.
  { unfold row_batches. rewrite Z2Nat.id by lia.
    rewrite <- list_fmap_compose. apply list_fmap_ext. intros _ k _. simpl.
    rewrite py_slice_take_drop by lia. do 3 f_equal. lia. }
  unfold predict. rewrite py_range_pos by done. csimpl.
  rewrite predict_loop_ok by done. csimpl. rewrite Hbs. fold outs.
  destruct (forward_each_length T
              (row_batches (to_numpy X) (Z.to_nat batch_size)) g Hnet)
    as [Hsum Hcount].
  fold outs in Hsum, Hcount. split.
  - intros Hne.
    assert (outs.1 ≠ []) as Hout.
    { intros Hnil. rewrite Hnil in Hcount. simpl in Hcount.
      unfold row_batches in Hcount. rewrite length_fmap, length_seq in Hcount.
      pose proof (ceil_div_covers (length (to_numpy X))
                    (Z.to_nat batch_size) ltac:(lia)) as Hcov.
      rewrite <- Hcount in Hcov.
      destruct (rows X); [done|]. simpl in Hlen. lia. }
    assert (np_concatenate outs.1 = Ok (concat outs.1)) as ->
      by (by destruct (outs.1)).
    split; [done|].
    rewrite Hsum, row_batches_concat by lia.
    unfold single2. by rewrite length_fmap.
  - intros Hnil. rewrite Hnil in Hlen.
    assert (outs.1 = []) as ->; [|done].
    apply length_zero_iff_nil. rewrite Hcount. unfold row_batches.
    rewrite length_fmap, length_seq, Hlen. done.
Qed.

(** ** Sums, minima and maxima of finite values *)

Lemma fold_left_fadd_Fin (l : list Qc) (a : Qc) :
  fold_left fadd (Fin <$> l) (Fin a) = Fin (fold_left Qcplus l a).
Proof. revert a. induction l as [|x l IH]; intros a; csimpl; [done|apply IH]. Qed.

Lemma np_sum_Fin (l : list Qc) : np_sum (Fin <$> l) = Fin (qsum l).
Proof. apply fold_left_fadd_Fin. Qed.

Lemma fold_left_fmin_Fin (l : list Qc) (a : Qc) :
  fold_left fmin (Fin <$> l) (Fin a) = Fin (fold_left Qc_min l a).
Proof.
  revert a. induction l as [|x l IH]; intros a; csimpl; [done|].
  unfold Qc_min at 2. destruct (Qc_ltb x a); apply IH.
Qed.

Lemma fold_left_fmax_Fin (l : list Qc) (a : Qc) :
  fold_left fmax (Fin <$> l) (Fin a) = Fin (fold_left Qc_max l a).
Proof.
  revert a. induction l as [|x l IH]; intros a; csimpl; [done|].
  unfold Qc_max at 2. destruct (Qc_ltb a x); apply IH.
Qed.

Lemma Qc_min_spec (a b : Qc) :
  (Qc_min a b = a \/ Qc_min a b = b) /\ Qc_min a b <= a /\ Qc_min a b <= b.
Proof.
  unfold Qc_min. destruct (Qc_ltb b a) eqn:E.
  - apply Qc_ltb_lt in E. repeat split; [by right|by apply Qclt_le_weak|done].
  - repeat split; [by left|done|].
    destruct (Qclt_le_dec b a) as [H|H]; [|done].
    apply Qc_ltb_lt in H. congruence.
Qed.

Lemma Qc_max_spec (a b : Qc) :
  (Qc_max a b = a \/ Qc_max a b = b) /\ a <= Qc_max a b /\ b <= Qc_max a b.
Proof.
  unfold Qc_max. destruct (Qc_ltb a b) eqn:E.
  - apply Qc_ltb_lt in E. repeat split; [by right|by apply Qclt_le_weak|done].
  - repeat split; [by left|done|].
    destruct (Qclt_le_dec a b) as [H|H]; [|done].
    apply Qc_ltb_lt in H. congruence.
Qed.

Lemma fold_left_Qc_min_spec (l : list Qc) (a : Qc) :
  fold_left Qc_min l a ∈ a :: l
  /\ forall x, x ∈ a :: l -> fold_left Qc_min l a <= x.
Proof.
  revert a. induction l as [|b l IH]; intros a; simpl.
  - split; [by left|]. intros x ->%list_elem_of_singleton. done.
  - destruct (IH (Qc_min a b)) as [Hin Hle].
    destruct (Qc_min_spec a b) as (Hab & Ha & Hb). split.
    + apply elem_of_cons in Hin as [->|Hin].
      * destruct Hab as [->| ->]; [by left|by right; left].
      * by do 2 right.
    + intros x Hx. apply elem_of_cons in Hx as [->|Hx].
      * etrans; [apply Hle; by left|done].
      * apply elem_of_cons in Hx as [->|Hx].
        -- etrans; [apply Hle; by left|done].
        -- apply Hle. by right.
Qed.

Lemma fold_left_Qc_max_spec (l : list Qc) (a : Qc) :
  fold_left Qc_max l a ∈ a :: l
  /\ forall x, x ∈ a :: l -> x <= fold_left Qc_max l a.
Proof.
  revert a. induction l as [|b l IH]; intros a; simpl.
  - split; [by left|]. intros x ->%list_elem_of_singleton. done.
  - destruct (IH (Qc_max a b)) as [Hin Hle].
    destruct (Qc_max_spec a b) as (Hab & Ha & Hb). split.
    + apply elem_of_cons in Hin as [->|Hin].
      * destruct Hab as [->| ->]; [by left|by right; left].
      * by do 2 right.
    + intros x Hx. apply elem_of_cons in Hx as [->|Hx].
      * etrans; [done|apply Hle; by left].
      * apply elem_of_cons in Hx as [->|Hx].
        -- etrans; [done|apply Hle; by left].
        -- apply Hle. by right.
Qed.

(** The least entry of a list of finite values is its minimum. *)
Lemma np_min_Fin (l : list Qc) (v : Qc) :
  v ∈ l -> (forall x, x ∈ l -> v <= x) -> np_min (Fin <$> l) = Ok (Fin v).
Proof.
  intros Hin Hle. destruct l as [|a l]; [by apply elem_of_nil in Hin|].
  csimpl. rewrite fold_left_fmin_Fin. do 2 f_equal.
  destruct (fold_left_Qc_min_spec l a) as [Hin' Hle'].
  apply Qcle_antisym; [by apply Hle'|by apply Hle].
Qed.

Lemma np_max_Fin (l : list Qc) (v : Qc) :
  v ∈ l -> (forall x, x ∈ l -> x <= v) -> np_max (Fin <$> l) = Ok (Fin v).
Proof.
  intros Hin Hle. destruct l as [|a l]; [by apply elem_of_nil in Hin|].
  csimpl. rewrite fold_left_fmax_Fin. do 2 f_equal.
  destruct (fold_left_Qc_max_spec l a) as [Hin' Hle'].
  apply Qcle_antisym; [by apply Hle|by apply Hle'].
Qed.

(** A list of finite values that is not empty has a minimum. *)
Lemma np_min_Fin_ex (l : list Qc) :
  l ≠ [] ->
  exists v, np_min (Fin <$> l) = Ok (Fin v) /\ v ∈ l
            /\ forall x, x ∈ l -> v <= x.
Proof.
  intros Hne. destruct l as [|a l]; [done|].
  destruct (fold_left_Qc_min_spec l a) as [Hin Hle].
  exists (fold_left Qc_min l a). repeat split; [|done..].
  by apply np_min_Fin.
Qed.

(** The first index of a value that occurs. *)
Lemma first_index_Fin (l : list Qc) (v : Qc) :
  v ∈ l ->
  exists i, first_index (Fin <$> l) (Fin v) = Ok i
            /\ l !! i = Some v
            /\ forall j x, (j < i)%nat -> l !! j = Some x -> x ≠ v.
Proof.
  induction l as [|a l IH]; intros Hin; [by apply elem_of_nil in Hin|].
  csimpl. destruct (Qc_eqb a v) eqn:E.
  - apply Qc_eqb_eq in E as ->. exists 0%nat.
    split; [done|]. split; [done|]. intros; lia.
  - assert (a ≠ v) as Hne.
    { intros ->. by rewrite (proj2 (Qc_eqb_eq v v)) in E. }
    apply elem_of_cons in Hin as [->|Hin]; [done|].
    destruct (IH Hin) as (i & -> & Hi & Hbefore). csimpl.
    exists (S i). split; [done|]. split; [done|].
    intros [|j] x Hj Hx; simplify_eq/=; [done|].
    eapply Hbefore; [|done]. lia.
Qed.

(** The epoch of the best summed loss is the first at which the summed
    loss is least. *)
Lemma best_epoch_Fin (l : list Qc) :
  l ≠ [] ->
  exists i, best_epoch (Fin <$> l) = Ok (Z.of_nat i + 1)%Z
            /\ first_minimum l i.
Proof.
  intros Hne. destruct (np_min_Fin_ex l Hne) as (v & Hmin & Hin & Hle).
  destruct (first_index_Fin l v Hin) as (i & Hi & Hv & Hbefore).
  exists i. unfold best_epoch. rewrite Hmin. csimpl. rewrite Hi. csimpl.
  split; [done|]. exists v. split; [done|]. split; [done|].
  intros j x Hj Hx.
  assert (v <= x) as Hvx by (eapply Hle, list_elem_of_lookup_2, Hx).
  apply Qcle_lt_or_eq in Hvx as [?| ->]; [done|].
  by destruct (Hbefore j x Hj Hx).
Qed.

(** ** Loss histories *)

Lemma length_fin_history (hq : list (list Qc)) :
  length (fin_history hq) = length hq.
Proof. unfold fin_history. by rewrite length_fmap. Qed.

Lemma np_array_fin (hq : list (list Qc)) (k : nat) :
  rectangular hq k -> np_array (fin_history hq) = Ok (fin_history hq).
Proof.
  intros Hrect. destruct hq as [|r hq]; [done|].
  unfold np_array, fin_history. rewrite fmap_cons. rewrite decide_True; [done|].
  rewrite <- fmap_cons. apply Forall_fmap. unfold rectangular in Hrect.
  eapply Forall_impl; [done|]. intros r' Hr'. simpl.
  rewrite !length_fmap. apply Forall_inv in Hrect. congruence.
Qed.

Lemma sum_axis1_fin (hq : list (list Qc)) :
  hq ≠ [] -> sum_axis1 (fin_history hq) = Ok (Fin <$> (qsum <$> hq)).
Proof.
  intros Hne. destruct hq as [|r hq]; [done|].
  unfold sum_axis1, fin_history. rewrite fmap_cons. f_equal.
  rewrite <- fmap_cons, <- !list_fmap_compose.
  apply list_fmap_ext. intros _ r' _. apply np_sum_Fin.
Qed.

(** The losses of one mass point, through the epochs. *)
Lemma column_fin (hq : list (list Qc)) (i k : nat) :
  rectangular hq k -> (i < k)%nat ->
  exists col,
    column i (fin_history hq) = Ok (Fin <$> col)
    /\ length col = length hq
    /\ forall e, col !! e = loss_of hq e i.
Proof.
  intros Hrect Hi. induction hq as [|r hq IH].
  - exists []. by repeat split.
  - apply Forall_cons in Hrect as [Hr Hrect].
    destruct (IH Hrect) as (col & Hcol & Hlen & Hloss).
    destruct (lookup_lt_is_Some_2 r i ltac:(lia)) as [x Hx].
    exists (x :: col). unfold fin_history in *. csimpl.
    rewrite list_lookup_fmap, Hx. csimpl. rewrite Hcol. csimpl.
    split; [done|]. split; [by rewrite Hlen|].
    intros [|e]; [by unfold loss_of; simpl; rewrite Hx|apply Hloss].
Qed.

(** ** Learning-rate scheduling *)









(** ** Early stopping *)

#[local] Arguments fsub : simpl never.
#[local] Arguments fdiv : simpl never.
#[local] Arguments fgtb : simpl never.

Lemma py_slice_last {A : Type} (l : list A) (g : Z) :
  (1 <= g <= Z.of_nat (length l))%Z ->
  py_slice l (Some (- g)%Z) None = drop (Z.to_nat (Z.of_nat (length l) - g)) l.
Proof.
  intros Hg. unfold py_slice, clamp_index. simpl.
  destruct (Z.ltb_spec (- g) 0) as [_|?]; [|lia].
  rewrite Z.max_l by lia.
  replace (- g + Z.of_nat (length l))%Z with (Z.of_nat (length l) - g)%Z by lia.
  apply take_ge. rewrite length_drop. lia.
Qed.

Lemma py_slice_but_last {A : Type} (l : list A) (g : Z) :
  (1 <= g <= Z.of_nat (length l))%Z ->
  py_slice l None (Some (- g)%Z) = take (Z.to_nat (Z.of_nat (length l) - g)) l.
Proof.
  intros Hg. unfold py_slice, clamp_index. simpl.
  destruct (Z.ltb_spec (- g) 0) as [_|?]; [|lia].
  rewrite Z.max_l by lia. rewrite drop_0. f_equal. lia.
Qed.

Lemma any_index_false (test : nat -> result bool) (idx : list nat) :
  (forall i, i ∈ idx -> test i = Ok false) -> any_index test idx = Ok false.
Proof.
  induction idx as [|i idx IH]; intros Htest; [done|]. simpl.
  rewrite Htest by (by left). csimpl. apply IH. intros j Hj.
  apply Htest. by right.
Qed.

(** A quotient with numerator zero is not above a tolerance that is not
    negative. *)
Lemma zero_ratio_not_above (b : Qc) (tol : float) :
  nonneg tol -> fgtb (fdiv (Fin 0) (Fin b)) tol = false.
Proof.
  intros Htol. destruct tol as [t| | |]; try done. simpl in Htol.
  unfold fgtb, fdiv. destruct (Qc_eqb b 0) eqn:E; [done|]. simpl.
  destruct (Qc_ltb t (0 / b)) eqn:Hlt; [|done].
  apply Qc_ltb_lt in Hlt. exfalso.
  assert (0 / b = 0) as H0 by (unfold Qcdiv; ring).
  rewrite H0 in Hlt. by apply (Qcle_not_lt _ _ Htol).
Qed.

Lemma fsub_diag (v : Qc) : fsub (Fin v) (Fin v) = Fin 0.
Proof. unfold fsub. simpl. f_equal. ring. Qed.

Section flat_column.
Context (col : list Qc) (K g : nat) (v : Qc).
Hypothesis Hv : col !! (K - 1)%nat = Some v.
Hypothesis Hge : forall x, x ∈ col -> v <= x.
Hypothesis Hflat :
  forall e y, (K <= S e)%nat -> col !! e = Some y -> y = v.
Hypothesis HK : (1 <= K)%nat.
Hypothesis Hg : (1 <= g)%nat.
Hypothesis Hn : (K + g <= length col)%nat.

Lemma flat_min : np_min (Fin <$> col) = Ok (Fin v).
Proof. apply np_min_Fin; [by eapply list_elem_of_lookup_2|done]. Qed.

Lemma flat_tail_all x : x ∈ drop (length col - g) col -> x = v.
Proof.
  intros (e & He)%list_elem_of_lookup. rewrite lookup_drop in He.
  eapply Hflat; [|done]. lia.
Qed.

Lemma flat_tail_in : v ∈ drop (length col - g) col.
Proof.
  destruct (lookup_lt_is_Some_2 (drop (length col - g) col) 0) as [x Hx].
  { rewrite length_drop. lia. }
  pose proof (list_elem_of_lookup_2 _ _ _ Hx) as Hin.
  by rewrite <- (flat_tail_all x Hin).
Qed.

Lemma flat_tail_min :
  np_min (Fin <$> drop (length col - g) col) = Ok (Fin v).
Proof.
  apply np_min_Fin; [apply flat_tail_in|].
  intros x ->%flat_tail_all. done.
Qed.

Lemma flat_tail_max :
  np_max (Fin <$> drop (length col - g) col) = Ok (Fin v).
Proof.
  apply np_max_Fin; [apply flat_tail_in|].
  intros x ->%flat_tail_all. done.
Qed.

Lemma flat_head_min :
  np_min (Fin <$> take (length col - g) col) = Ok (Fin v).
Proof.
  apply np_min_Fin.
  - apply list_elem_of_lookup. exists (K - 1)%nat.
    rewrite lookup_take_lt by lia. done.
  - intros x Hx. apply Hge. apply list_elem_of_lookup in Hx as [e He].
    apply lookup_take_Some in He as [He _].
    by eapply list_elem_of_lookup_2.
Qed.

Lemma flat_unstable (tol : float) :
  nonneg tol ->
  (best_loss ← np_min (Fin <$> col);
   hi ← np_max (py_slice (Fin <$> col) (Some (- Z.of_nat g)%Z) None);
   lo ← np_min (py_slice (Fin <$> col) (Some (- Z.of_nat g)%Z) None);
   let variation := fsub hi lo in
   Ok (fgtb (fdiv variation best_loss) tol)) = Ok false.
Proof.
  intros Htol. rewrite flat_min. csimpl.
  rewrite py_slice_last by (rewrite length_fmap; lia).
  rewrite length_fmap.
  replace (Z.to_nat (Z.of_nat (length col) - Z.of_nat g))
    with (length col - g)%nat by lia.
  rewrite <- fmap_drop, flat_tail_max, flat_tail_min. csimpl.
  by rewrite fsub_diag, zero_ratio_not_above.
Qed.

Lemma flat_improving (tol : float) :
  nonneg tol ->
  (best_loss ← np_min (Fin <$> col);
   best_loss_before ←
     np_min (py_slice (Fin <$> col) None (Some (- Z.of_nat g)%Z));
   Ok (fgtb (fdiv (fsub best_loss_before best_loss) best_loss) tol))
  = Ok false.
Proof.
  intros Htol. rewrite flat_min. csimpl.
  rewrite py_slice_but_last by (rewrite length_fmap; lia).
  rewrite length_fmap.
  replace (Z.to_nat (Z.of_nat (length col) - Z.of_nat g))
    with (length col - g)%nat by lia.
  rewrite <- fmap_take, flat_head_min. csimpl.
  by rewrite fsub_diag, zero_ratio_not_above.
Qed.
End flat_column.

(** The losses of a mass point that fall and then stay flat: the flat value
    is the least. *)
Lemma decreasing_then_flat_column (hq : list (list Qc)) (i Ki : nat)
    (col : list Qc) :
  (forall e, col !! e = loss_of hq e i) ->
  decreasing_then_flat hq i Ki ->
  (1 <= Ki <= length col)%nat ->
  exists v,
    col !! (Ki - 1)%nat = Some v
    /\ (forall x, x ∈ col -> v <= x)
    /\ (forall e y, (Ki <= S e)%nat -> col !! e = Some y -> y = v).
Proof.
  intros Hcol [Hdec Hflat] HKi.
  destruct (lookup_lt_is_Some_2 col (Ki - 1)) as [v Hv]; [lia|].
  exists v. split; [done|]. split.
  - intros x (e & He)%list_elem_of_lookup.
    destruct (decide (Ki <= S e)%nat) as [Hle|Hgt].
    + rewrite Hcol in Hv, He. by rewrite (Hflat e v x Hle Hv He).
    + apply Qclt_le_weak. rewrite Hcol in Hv, He.
      apply (Hdec e (Ki - 1)%nat x v); [lia|done..].
  - intros e y Hle He. rewrite Hcol in Hv, He. by eapply Hflat.
Qed.

(** C4.  [shouldEarlyStop] answers [False] on every history shorter than
    [min_epoch].  On a history of at least [min_epoch] epochs in which the
    losses of every mass point fall strictly and then stay exactly flat, all
    of them flat from epoch [K] on, it answers [True] once the flat stretch,
    epochs [K] to [n], is longer than [grace_epochs]: the variation inside
    it is zero, which is under any tolerance that is not negative. *)
Theorem shouldEarlyStop_flat :
  (forall (self : Model) (losses : list (list float))
          (min_epoch grace_epochs : Z) (tol : float),
      (Z.of_nat (length losses) < min_epoch)%Z ->
      shouldEarlyStop self losses min_epoch grace_epochs tol = Ok false)
  /\ (forall (self : Model) (hq : list (list Qc))
             (min_epoch grace_epochs : Z) (tol : float) (K : nat),
        rectangular hq (length (train_masses self)) ->
        (forall i, (i < length (train_masses self))%nat ->
                   exists Ki, (1 <= Ki <= K)%nat /\ decreasing_then_flat hq i Ki) ->
        (1 <= K <= length hq)%nat ->
        (1 <= grace_epochs)%Z ->
        nonneg tol ->
        (min_epoch <= Z.of_nat (length hq))%Z ->
        (grace_epochs < Z.of_nat (length hq) - Z.of_nat K + 1)%Z ->
        shouldEarlyStop self (fin_history hq) min_epoch grace_epochs tol
        = Ok true).
Proof.
  split.
  - intros self losses min_epoch grace_epochs tol Hn. unfold shouldEarlyStop.
    by destruct (Z.ltb_spec (Z.of_nat (length losses)) min_epoch); [|lia].
  - intros self hq min_epoch grace_epochs tol K Hrect Hcols HK Hg Htol Hmin Hflat.
    assert (exists g, grace_epochs = Z.of_nat g) as [g ->]
      by (exists (Z.to_nat grace_epochs); lia).
    assert (hq ≠ []) as Hne by (destruct hq; simpl in *; [lia|done]).
    (* both loops find nothing *)
    assert (forall i, i ∈ seq 0 (length (train_masses self)) ->
              unstable (fin_history hq) (Z.of_nat g) tol i = Ok false
              /\ improving (fin_history hq) (Z.of_nat g) tol i = Ok false)
      as Hloops.
    { intros i Hi. apply elem_of_seq in Hi as [_ Hi]. simpl in Hi.
      destruct (column_fin hq i _ Hrect Hi) as (col & Hcol & Hlen & Hloss).
      destruct (Hcols i Hi) as (Ki & HKi & Hdf).
      destruct (decreasing_then_flat_column hq i Ki col Hloss Hdf)
        as (v & Hv & Hge & Hfl); [lia|].
      unfold unstable, improving. rewrite Hcol. csimpl. split.
      - apply (flat_unstable col Ki g v); try done; lia.
      - apply (flat_improving col Ki g v); try done; lia. }
    unfold shouldEarlyStop. rewrite length_fin_history.
    destruct (Z.ltb_spec (Z.of_nat (length hq)) min_epoch) as [?|_]; [lia|].
    rewrite (np_array_fin _ _ Hrect). csimpl.
    rewrite sum_axis1_fin by done. csimpl.
    destruct (Z.ltb_spec (Z.of_nat g) (Z.of_nat (length hq))) as [_|?]; [|lia].
    rewrite (any_index_false (unstable _ _ _))
      by (intros i Hi; apply Hloops, Hi).
    csimpl.
    destruct (best_epoch_Fin (qsum <$> hq)) as (e & -> & _);
      [by destruct hq|].
    csimpl. destruct (_ <? _)%Z; [done|].
    rewrite (any_index_false (improving _ _ _))
      by (intros i Hi; apply Hloops, Hi).
    done.
Qed.

(** ** Weight balancing: finite weights *)

Lemma fold_left_Qcplus (l : list Qc) (a : Qc) :
  fold_left Qcplus l a = a + qsum l.
Proof.
  unfold qsum. revert a. induction l as [|x l IH]; intros a; simpl.
  - ring.
  - rewrite (IH (a + x)), (IH (0 + x)). ring.
Qed.

Lemma qsum_cons (x : Qc) (l : list Qc) : qsum (x :: l) = x + qsum l.
Proof. unfold qsum at 1. simpl. rewrite fold_left_Qcplus. ring. Qed.

Lemma qsum_nil : qsum [] = 0.
Proof. done. Qed.


Section select_lemmas.
Context {A B : Type}.

Lemma select_fmap (f : A -> B) (mask : list bool) (l : list A) :
  select mask (f <$> l) = f <$> select mask l.
Proof.
  revert l. induction mask as [|b mask IH]; intros [|x l]; csimpl; try done.
  destruct b; csimpl; by rewrite IH.
Qed.

Lemma Forall_select (P : A -> Prop) (mask : list bool) (l : list A) :
  Forall P l -> Forall P (select mask l).
Proof.
  intros H. revert mask. induction H as [|x l Hx _ IH]; intros [|b mask];
    simpl; try done.
  destruct b; [by constructor|done].
Qed.
End select_lemmas.

Lemma length_scale_where (mask : list bool) (c : Qc) (qs : list Qc) :
  length mask = length qs -> length (scale_where mask c qs) = length qs.
Proof. intros H. unfold scale_where. rewrite length_zip_with. lia. Qed.



(** The summed weight of the rescaled selection. *)
Lemma qsumw_scale_same (mask : list bool) (c : Qc) (qs : list Qc) :
  qsumw mask (scale_where mask c qs) = qsumw mask qs * c.
Proof.
  unfold qsumw, scale_where. revert qs.
  induction mask as [|b mask IH]; intros [|q qs]; simpl;
    try (rewrite ?qsum_nil; ring).
  destruct b; simpl; rewrite ?qsum_cons, IH; ring.
Qed.

(** A selection that shares no event with the rescaled one is untouched. *)
Lemma select_scale_disjoint (m1 m2 : list bool) (c : Qc) (qs : list Qc) :
  disjoint_masks m1 m2 ->
  select m1 (scale_where m2 c qs) = select m1 qs.
Proof.
  intros Hdis. revert qs. unfold scale_where.
  induction Hdis as [|a b m1 m2 Hab _ IH]; intros [|q qs]; simpl; try done.
  rewrite IH. by destruct a, b.
Qed.

Lemma qsumw_scale_disjoint (m1 m2 : list bool) (c : Qc) (qs : list Qc) :
  disjoint_masks m1 m2 ->
  qsumw m1 (scale_where m2 c qs) = qsumw m1 qs.
Proof. intros H. unfold qsumw. by rewrite select_scale_disjoint. Qed.

Lemma disjoint_masks_sym (m1 m2 : list bool) :
  disjoint_masks m1 m2 -> disjoint_masks m2 m1.
Proof.
  induction 1 as [|a b m1 m2 Hab _ IH]; constructor; [|done].
  by rewrite andb_comm.
Qed.


(** ** Weight balancing: the arrays *)

Lemma last_column_ok (X : list (list float)) :
  Forall (fun r => r ≠ []) X -> last_column X = Ok (mass_of <$> X).
Proof.
  induction 1 as [|r X Hr _ IH]; [done|]. csimpl. unfold mass_of at 1.
  destruct (last r) as [x|] eqn:E.
  - rewrite IH. done.
  - by apply last_None in E.
Qed.

Lemma length_group (X : list (list float)) (y : list float) (label m : float) :
  length X = length y -> length (group X y label m) = length y.
Proof.
  intros H. unfold group.
  rewrite length_zip_with, !length_np_eq, length_fmap. lia.
Qed.

Lemma class_mass_mask_ok (X : list (list float)) (y : list float)
    (label m : float) :
  Forall (fun r => r ≠ []) X -> length X = length y ->
  class_mass_mask X y label m = Ok (group X y label m).
Proof.
  intros HX Hlen. unfold class_mass_mask, np_and. rewrite last_column_ok by done.
  csimpl. rewrite decide_True; [done|].
  by rewrite !length_np_eq, length_fmap.
Qed.




Lemma fdiv_Fin (a b : Qc) : b ≠ 0 -> fdiv (Fin a) (Fin b) = Fin (a / b).
Proof.
  intros Hb. unfold fdiv. destruct (Qc_eqb b 0) eqn:E; [|done].
  by apply Qc_eqb_eq in E.
Qed.

Lemma assign_scale (mask : list bool) (qs : list Qc) (s : pyval) (c : Qc) :
  length mask = length qs ->
  to_float s = Fin c ->
  assign mask (Fin <$> qs) (np_scale (Fin <$> select mask qs) s)
  = Fin <$> scale_where mask c qs.
Proof.
  intros Hlen Hs. unfold np_scale, scale_where. rewrite Hs. revert qs Hlen.
  induction mask as [|b mask IH]; intros [|q qs] Hlen; simplify_eq/=;
    [done|].
  destruct b; csimpl; by rewrite IH.
Qed.


Lemma length_np_scale (arr : list float) (s : pyval) :
  length (np_scale arr s) = length arr.
Proof. unfold np_scale. by rewrite length_fmap. Qed.





(** ** Groups of events *)

Lemma disjoint_groups (X : list (list float)) (y : list float)
    (l1 m1 l2 m2 : float) :
  length X = length y ->
  l1 ≠ l2 \/ m1 ≠ m2 ->
  disjoint_masks (group X y l1 m1) (group X y l2 m2).
Proof.
  intros Hlen Hne. unfold disjoint_masks, group. revert y Hlen.
  induction X as [|r X IH]; intros [|a y] Hlen; simplify_eq/=;
    [constructor|].
  unfold np_eq. csimpl. constructor; [|by apply IH].
  destruct (feqb a l1) eqn:E1, (feqb a l2) eqn:E2,
    (feqb (mass_of r) m1) eqn:E3, (feqb (mass_of r) m2) eqn:E4; try done.
  apply feqb_eq in E1, E2, E3, E4. destruct Hne; congruence.
Qed.


(** ** The loop over the mass points *)

Lemma signal_neq_background : signal ≠ background.
Proof. intros H. pose proof signal_not_background as E. by rewrite H in E. Qed.



Section balancing.
Context (X : list (list float)) (y : list float).
Hypothesis HX : Forall (fun r => r ≠ []) X.
Hypothesis Hlen : length X = length y.


End balancing.

(** ** The two stages of [equaliseWeights] *)




Section stages.
Context (self : Model) (X : list (list float)) (y : list float).
Hypothesis Hmasses : train_masses self ≠ [].
Hypothesis HX : Forall (fun r => r ≠ []) X.
Hypothesis Hlen : length X = length y.


End stages.

(** ** The claims about [equaliseWeights] *)




(** ** Division by zero in [equaliseWeights] *)




Section no_abort.
Context (X : list (list float)) (y : list float).
Hypothesis HX : Forall (fun r => r ≠ []) X.
Hypothesis Hlen : length X = length y.



End no_abort.



(** ** Evaluation *)

Lemma np_trapz_returns (y x : list float) :
  length x = length y -> exists auc, np_trapz y x = Ok auc.
Proof.
  intros Hlen. unfold np_trapz, np_mul. rewrite decide_True; [by eexists|].
  unfold np_diff, py_slice, clamp_index. simpl.
  rewrite !length_zip_with, !length_take, !length_drop. lia.
Qed.

(** C8.  When the prediction and [roc_curve] have returned (with as many
    false-positive as true-positive rates) and [roc_auc_score] raises,
    whatever it raises, [getROC] returns the curve with [np.trapz(tpr, fpr)]
    as the AUC. *)
Theorem getROC_falls_back (sk : Sklearn)
    (predict_X : DataFrame -> result (list float)) (X : DataFrame)
    (y : list float) (weight : option (list float))
    (predictions fpr tpr t : list float) (e : exn) :
  predict_X X = Ok predictions ->
  roc_curve sk y predictions weight = Ok (fpr, tpr, t) ->
  length fpr = length tpr ->
  roc_auc_score sk y predictions weight = Raise e ->
  exists auc,
    np_trapz tpr fpr = Ok auc
    /\ getROC sk predict_X X y weight = Ok (fpr, tpr, auc).
Proof.
  intros Hpred Hcurve Hlen Hauc.
  destruct (np_trapz_returns tpr fpr Hlen) as [auc Htrapz].
  exists auc. split; [done|].
  unfold getROC. rewrite Hpred, bind_Ok, Hcurve, bind_Ok, Hauc, Htrapz. done.
Qed.

(** ** The epoch loop *)

(** What the scheduler query can raise is not an interrupt. *)
Lemma first_index_exn (arr : list float) (v : float) (e : exn) :
  first_index arr v = Raise e -> e = IndexError.
Proof.
  induction arr as [|x arr IH]; simpl; [by intros [= <-]|].
  destruct (feqb x v); [done|].
  destruct (first_index arr v) as [i|e']; [done|].
  intros [= <-]. by apply IH.
Qed.

Lemma best_epoch_exn (slosses : list float) (e : exn) :
  best_epoch slosses = Raise e -> e ≠ KeyboardInterrupt.
Proof.
  unfold best_epoch. destruct slosses as [|x l]; [by intros [= <-]|].
  cbn [np_min]. rewrite bind_Ok.
  destruct (first_index _ _) as [i|e'] eqn:E; [done|].
  intros [= <-]. by rewrite (first_index_exn _ _ _ E).
Qed.

Lemma shouldSchedulerStep_exn (last : Z) (h : list (list float)) (e : exn) :
  shouldSchedulerStep last h = Raise e -> e ≠ KeyboardInterrupt.
Proof.
  unfold shouldSchedulerStep.
  destruct (np_array h) as [a|e'] eqn:Ea.
  2:{ intros [= <-]. unfold np_array in Ea. destruct h; [done|].
      destruct (decide _); [done|]. by injection Ea as <-. }
  rewrite bind_Ok. destruct a as [|r a]; [by intros [= <-]|].
  cbn [sum_axis1]. rewrite bind_Ok.
  destruct (best_epoch _) as [b|e'] eqn:Eb.
  - rewrite bind_Ok. by destruct (_ && _).
  - intros [= <-]. by eapply best_epoch_exn.
Qed.

Section loop.
Context (T : Torch) (env : Env) (self : Model) (d : Data).
Context (batch_size min_epoch grace_epochs : Z) (tol : float).

Abbreviation body := (epoch_body T env self d batch_size).
Abbreviation loop := (epochs T env self d batch_size min_epoch grace_epochs tol).
Abbreviation at_epoch :=
  (state_at T env self d batch_size min_epoch grace_epochs tol).

(** [except KeyboardInterrupt: break], then [return]. *)
Lemma epochs_caught (n i : nat) (s s' : LoopState T) :
  interrupted env i LoopHead = false ->
  body i s = (s', Some KeyboardInterrupt) ->
  loop (S n) i s = Ok (train_loss s', test_loss s').
Proof. intros Hhead Hbody. simpl. by rewrite Hhead, Hbody. Qed.

(** The loop from its start is the loop from any epoch it gets to. *)
Lemma epochs_from (s0 s : LoopState T) (k n : nat) :
  at_epoch s0 k = Some s ->
  loop (k + n) 0 s0 = loop n k s.
Proof.
  revert s n. induction k as [|k IH]; intros s n Hat.
  - by injection Hat as ->.
  - simpl in Hat.
    destruct (at_epoch s0 k) as [s1|] eqn:E1; [|done].
    destruct (interrupted env k LoopHead) eqn:Ehead; [done|].
    destruct (body k s1) as [s2 [e|]] eqn:Ebody; [done|].
    destruct (interrupted env k InEarlyStop) eqn:Estop; [done|].
    destruct (shouldEarlyStop self (test_loss s2) min_epoch grace_epochs tol)
      as [[|]|] eqn:Eearly; try done.
    injection Hat as <-.
    replace (S k + n)%nat with (k + S n)%nat by lia.
    rewrite (IH s1 (S n) eq_refl). simpl.
    by rewrite Ehead, Ebody, Estop, Eearly.
Qed.

Lemma fit_batches_net (i k : nat) (batches : list batch) (g : net T) :
  exists g' o, fit_batches T env i k batches g = (g', o).
Proof. destruct (fit_batches T env i k batches g). by eexists _, _. Qed.

(** The body of an epoch only appends to the histories, at most one
    record each. *)
Lemma epoch_body_histories (i : nat) (s s' : LoopState T) (o : option exn) :
  body i s = (s', o) ->
  (train_loss s' = train_loss s
   \/ exists trl, train_loss s' = train_loss s ++ [trl])
  /\ (test_loss s' = test_loss s
      \/ exists tel, test_loss s' = test_loss s ++ [tel]).
Proof.
  unfold epoch_body.
  destruct (getBatches _ _ _ _ _) as [batches|e].
  2:{ intros [= <- <-]. split; by left. }
  destruct (fit_batches T env i 0 batches (st_net s)) as [g [e|]].
  { intros [= <- <-]. split; by left. }
  destruct (interrupted env i InLossEval).
  { intros [= <- <-]. split; by left. }
  destruct (mass_losses T d (train_masses self) [] [] g)
    as [[[trl tel] g1]|e].
  2:{ intros [= <- <-]. split; by left. }
  cbn [train_loss test_loss last_step_epoch st_net].
  destruct (interrupted env i BetweenAppends).
  { intros [= <- <-]. split; [right; by eexists|by left]. }
  destruct (interrupted env i InSchedulerStep).
  { intros [= <- <-]. split; right; by eexists. }
  destruct (shouldSchedulerStep _ _) as [[step last]|e].
  2:{ intros [= <- <-]. split; right; by eexists. }
  destruct (interrupted env i InPlot);
    intros [= <- <-]; split; right; by eexists.
Qed.

(** An interrupt during the batches or the loss evaluation leaves the
    histories as they were when the epoch began. *)
Lemma epoch_body_cut_short (i : nat) (p : point) (s s' : LoopState T) :
  interrupt env = Some (i, p) ->
  before_appends p = true ->
  body i s = (s', Some KeyboardInterrupt) ->
  train_loss s' = train_loss s /\ test_loss s' = test_loss s.
Proof.
  intros Hint Hp.
  assert (forall q, before_appends q = false -> interrupted env i q = false)
    as Hnot.
  { intros q Hq. unfold interrupted. rewrite Hint.
    apply bool_decide_eq_false. intros [= ->]. congruence. }
  unfold epoch_body.
  destruct (getBatches _ _ _ _ _) as [batches|e]; [|by intros [= <-]].
  destruct (fit_batches T env i 0 batches (st_net s)) as [g [e|]];
    [by intros [= <-]|].
  destruct (interrupted env i InLossEval); [by intros [= <-]|].
  destruct (mass_losses T d (train_masses self) [] [] g)
    as [[[trl tel] g1]|e]; [|by intros [= <-]].
  cbn [train_loss test_loss last_step_epoch st_net].
  rewrite !Hnot by done.
  destruct (shouldSchedulerStep _ _) as [[step last]|e] eqn:E; [done|].
  intros [= _ ->]. by apply shouldSchedulerStep_exn in E.
Qed.

(** An interrupt during batch [j] is raised when the pass has that many
    batches. *)
Lemma fit_batches_interrupted (i j k : nat) (batches : list batch)
    (g : net T) :
  interrupt env = Some (i, InBatch j) ->
  (k <= j < k + length batches)%nat ->
  exists g', fit_batches T env i k batches g = (g', Some KeyboardInterrupt).
Proof.
  intros Hint. revert k g.
  induction batches as [|b batches IH]; intros k g Hj; simpl in *; [lia|].
  unfold interrupted. rewrite Hint.
  destruct (decide (j = k)) as [->|Hne].
  - rewrite bool_decide_eq_true_2 by done. by eexists.
  - rewrite bool_decide_eq_false_2 by (intros [= ?]; lia).
    apply IH. lia.
Qed.

Lemma epoch_body_interrupted (i j : nat) (s : LoopState T)
    (batches : list batch) :
  interrupt env = Some (i, InBatch j) ->
  getBatches (X_train d) (y_train d) (w_train d) batch_size
    (Some (permutation env i (length (X_train d)))) = Ok batches ->
  (j < length batches)%nat ->
  exists g',
    body i s
    = (Build_LoopState g' (train_loss s) (test_loss s) (last_step_epoch s),
       Some KeyboardInterrupt).
Proof.
  intros Hint Hbatches Hj. unfold epoch_body. rewrite Hbatches.
  destruct (fit_batches_interrupted i j 0 batches (st_net s) Hint)
    as [g' ->]; [lia|].
  by exists g'.
Qed.

(** An epoch that runs to its end appends one record to each history. *)
Lemma epoch_body_completed (i : nat) (s s' : LoopState T) :
  body i s = (s', None) ->
  exists trl tel,
    train_loss s' = train_loss s ++ [trl]
    /\ test_loss s' = test_loss s ++ [tel].
Proof.
  unfold epoch_body.
  destruct (getBatches _ _ _ _ _) as [batches|e]; [|done].
  destruct (fit_batches T env i 0 batches (st_net s)) as [g [e|]]; [done|].
  destruct (interrupted env i InLossEval); [done|].
  destruct (mass_losses T d (train_masses self) [] [] g)
    as [[[trl tel] g1]|e]; [|done].
  cbn [train_loss test_loss last_step_epoch st_net].
  destruct (interrupted env i BetweenAppends); [done|].
  destruct (interrupted env i InSchedulerStep); [done|].
  destruct (shouldSchedulerStep _ _) as [[step last]|e]; [|done].
  destruct (interrupted env i InPlot); [done|].
  intros [= <-]. by exists trl, tel.
Qed.

(** On entry to epoch [k] each history holds [k] records. *)
Lemma state_at_lengths (s0 s : LoopState T) (k : nat) :
  at_epoch s0 k = Some s ->
  length (train_loss s) = (length (train_loss s0) + k)%nat
  /\ length (test_loss s) = (length (test_loss s0) + k)%nat.
Proof.
  revert s. induction k as [|k IH]; intros s Hat.
  - injection Hat as ->. lia.
  - simpl in Hat.
    destruct (at_epoch s0 k) as [s1|] eqn:E1; [|done].
    destruct (interrupted env k LoopHead) eqn:Ehead; [done|].
    destruct (body k s1) as [s2 [e|]] eqn:Ebody; [done|].
    destruct (interrupted env k InEarlyStop) eqn:Estop; [done|].
    destruct (shouldEarlyStop self (test_loss s2) min_epoch grace_epochs tol)
      as [[|]|] eqn:Eearly; try done.
    injection Hat as <-.
    destruct (epoch_body_completed k s1 s2 Ebody) as (trl & tel & -> & ->).
    destruct (IH s1 eq_refl) as [Htr Hte].
    rewrite !length_app. simpl. lia.
Qed.
End loop.

(** ** Interrupts *)

(** C9, as amended.  An interrupt signal that arrives inside the [try]
    statement of epoch [k] (during a batch, the loss evaluation, between the
    two appends, in the scheduler query or in the plot update) ends the loop:
    [train] returns the two histories as they are at that moment.  Each
    holds the [k] records of the epochs before, unchanged, and at most the
    record of epoch [k] after them; an interrupt during a batch or the loss
    evaluation cuts the epoch short and leaves no record of it. *)
Theorem train_interrupt_caught (T : Torch) (env : Env) (self : Model)
    (X_train : DataFrame) (y_train : list float)
    (X_test : DataFrame) (y_test w_train w_test : list float)
    (max_epochs batch_size min_epoch grace_epochs : Z) (tol : float)
    (g0 : net T) (d : Data) (k : nat) (p : point) (s s' : LoopState T) :
  prepare self X_train y_train X_test y_test w_train w_test = Ok d ->
  interrupt env = Some (k, p) ->
  in_try p = true ->
  (k < Z.to_nat max_epochs)%nat ->
  state_at T env self d batch_size min_epoch grace_epochs tol
    (Build_LoopState g0 [] [] 0) k = Some s ->
  epoch_body T env self d batch_size k s = (s', Some KeyboardInterrupt) ->
  train T env self X_train y_train X_test y_test w_train w_test
    max_epochs batch_size min_epoch grace_epochs tol g0
  = Ok (train_loss s', test_loss s')
  /\ length (train_loss s) = k
  /\ length (test_loss s) = k
  /\ (train_loss s' = train_loss s
      \/ exists trl, train_loss s' = train_loss s ++ [trl])
  /\ (test_loss s' = test_loss s
      \/ exists tel, test_loss s' = test_loss s ++ [tel])
  /\ (before_appends p = true ->
      train_loss s' = train_loss s /\ test_loss s' = test_loss s).
Proof.
  intros Hprep Hint Hp Hk Hat Hbody.
  assert (interrupted env k LoopHead = false) as Hhead.
  { unfold interrupted. rewrite Hint. apply bool_decide_eq_false.
    intros [= ->]. done. }
  split.
  - unfold train. rewrite Hprep, bind_Ok.
    replace (Z.to_nat max_epochs) with (k + S (Z.to_nat max_epochs - S k))%nat
      by lia.
    rewrite (epochs_from _ _ _ _ _ _ _ _ _ s k _ Hat).
    by apply epochs_caught.
  - destruct (state_at_lengths _ _ _ _ _ _ _ _ _ s k Hat) as [Htr Hte].
    destruct (epoch_body_histories _ _ _ _ _ k s s' _ Hbody) as [H1 H2].
    simpl in Htr, Hte. split; [done|]. split; [done|]. split; [done|].
    split; [done|]. intros Hbefore.
    by eapply epoch_body_cut_short.
Qed.

(** C9, as stated, fails: [shouldEarlyStop] is called outside the [try]
    statement, and an interrupt signal that arrives there leaves [train] as
    an exception. *)
Lemma train_interrupt_escapes :
  tiny_run (Some (0%nat, InEarlyStop)) = Raise KeyboardInterrupt.
Proof. vm_compute. reflexivity. Qed.


(** * The theorems at concrete inputs *)



Lemma fair_sample_rows : Forall (fun r : list float => r ≠ []) fair_X.
Proof. repeat constructor; done. Qed.






(** C3 on two events, one per batch, shuffled by swapping them. *)
Lemma getBatches_single_precision_witness :
  (exists batches,
      getBatches [[one_and_a_bit]; [frac 1 2]] tiny_y tiny_w 1 None
      = Ok batches
      /\ Z.of_nat (length batches) = 2%Z
      /\ concat ((fun b : batch => b.1.1) <$> batches)
         = single2 [[one_and_a_bit]; [frac 1 2]])
  /\ (exists batches,
        getBatches [[one_and_a_bit]; [frac 1 2]] tiny_y tiny_w 1
          (Some [1; 0]%nat) = Ok batches
        /\ batch_events batches
           ≡ₚ events (single2 [[one_and_a_bit]; [frac 1 2]])
                (single1 tiny_y) (single1 tiny_w)).
Proof.
  destruct (getBatches_single_precision [[one_and_a_bit]; [frac 1 2]]
              tiny_y tiny_w 1%Z) as [Hplain Hshuffled].
  - lia.
  - reflexivity.
  - reflexivity.
  - repeat constructor; done.
  - split.
    + destruct Hplain as (batches & Hrun & Hlen & HX & _).
      exists batches. split; [exact Hrun|]. split; [exact Hlen|exact HX].
    + destruct (Hshuffled [1; 0]%nat) as (batches & Hrun & _ & Hperm).
      * apply Permutation_swap.
      * exists batches. split; [exact Hrun|exact Hperm].
Defined.

Lemma flat_history_rectangular : rectangular flat_history 1.
Proof. repeat constructor. Qed.

Lemma flat_history_flat : decreasing_then_flat flat_history 0 5.
Proof.
  split.
  - intros e1 e2 x y [H12 H2] Hx Hy.
    repeat (destruct e2 as [|e2]; try lia);
      repeat (destruct e1 as [|e1]; try lia);
      injection Hx as <-; injection Hy as <-; by vm_compute.
  - intros e x y He Hx Hy. injection Hx as <-.
    do 10 (destruct e as [|e]; [try lia; by injection Hy as <-|]).
    done.
Qed.

(** C4 on the flat history: too short for [min_epoch=11], and flat for six
    epochs against [grace_epochs=5]. *)
Lemma shouldEarlyStop_flat_witness :
  shouldEarlyStop one_mass (fin_history flat_history) 11 5 (frac 1 100)
  = Ok false
  /\ shouldEarlyStop one_mass (fin_history flat_history) 10 5 (frac 1 100)
     = Ok true.
Proof.
  destruct shouldEarlyStop_flat as [Hshort Hflat]. split.
  - apply Hshort. rewrite length_fin_history. simpl. lia.
  - apply (Hflat one_mass flat_history 10%Z 5%Z (frac 1 100) 5%nat).
    + apply flat_history_rectangular.
    + intros i Hi. exists 5%nat. split; [lia|].
      destruct i as [|i]; [apply flat_history_flat|simpl in Hi; lia].
    + simpl. lia.
    + lia.
    + by vm_compute.
    + simpl. lia.
    + simpl. lia.
Defined.


(** C8 with a metrics library whose AUC fails. *)
Lemma getROC_falls_back_witness :
  exists auc,
    np_trapz [frac 0 1; frac 1 1; frac 1 1] [frac 0 1; frac 1 2; frac 1 1]
    = Ok auc
    /\ getROC failing_auc (fun _ => Ok [frac 1 2; frac 1 2]) tiny_frame
         tiny_y None
       = Ok ([frac 0 1; frac 1 2; frac 1 1], [frac 0 1; frac 1 1; frac 1 1],
             auc).
Proof.
  apply (getROC_falls_back failing_auc (fun _ => Ok [frac 1 2; frac 1 2])
           tiny_frame tiny_y None [frac 1 2; frac 1 2]
           [frac 0 1; frac 1 2; frac 1 1] [frac 0 1; frac 1 1; frac 1 1]
           [frac 2 1; frac 1 1; frac 0 1] ValueError); reflexivity.
Defined.

(** C10 on the tiny frame, one row per batch, and on a frame without rows. *)
Lemma predict_one_per_row_witness :
  (exists out,
      predict still_torch tiny_frame 1 () = Ok (out, ())
      /\ length out = 2%nat)
  /\ predict still_torch {| columns := ["pt"; "mass"]; rows := [] |} 1 ()
     = Raise ValueError.
Proof.
  split.
  - destruct (predict_one_per_row still_torch tiny_frame 1%Z ()) as [Hrows _].
    + lia.
    + done.
    + intros g b. simpl. apply length_fmap.
    + destruct (Hrows ltac:(done)) as [Hrun Hlen].
      eexists. split; [|exact Hlen].
      rewrite Hrun. reflexivity.
  - destruct (predict_one_per_row still_torch
                {| columns := ["pt"; "mass"]; rows := [] |} 1%Z ()) as [_ Hnone].
    + lia.
    + done.
    + intros g b. simpl. apply length_fmap.
    + by apply Hnone.
Defined.

(** C9 on the tiny run: an interrupt between the two appends of the second
    epoch. *)
Lemma train_interrupt_caught_witness :
  exists train_loss test_loss,
    tiny_run (Some (1%nat, BetweenAppends)) = Ok (train_loss, test_loss)
    /\ length train_loss = 2%nat
    /\ length test_loss = 1%nat.
Proof.
  assert (1 < Z.to_nat 3)%nat as Hlt by (simpl; lia).
  pose proof
    (fun d s s' Hprep =>
       train_interrupt_caught still_torch
         (quiet_env (Some (1%nat, BetweenAppends))) one_mass
         tiny_frame tiny_y tiny_frame tiny_y tiny_w tiny_w
         3%Z 32%Z 10%Z 5%Z (frac 1 100) () d 1%nat BetweenAppends s s'
         Hprep eq_refl eq_refl Hlt) as Hcaught.
  edestruct Hcaught as (Hrun & Htr & Hte & Htr' & Hte' & _).
  - vm_compute. reflexivity.
  - vm_compute. reflexivity.
  - vm_compute. reflexivity.
  - eexists _, _. split; [exact Hrun|]. split; reflexivity.
Defined.

(** * Further properties *)

(** ** Manual reweighting *)

Lemma scale_selected_fin (mask : list bool) (sf : pyval) (c : Qc)
    (qs : list Qc) :
  length mask = length qs ->
  to_float sf = Fin c ->
  scale_selected (Ok mask) sf (Fin <$> qs)
  = Ok (Fin <$> scale_where mask c qs).
Proof.
  intros Hlen Hsf. unfold scale_selected.
  repeat first [rewrite bind_Ok
               | rewrite np_select_ok by (by rewrite length_fmap)].
  rewrite select_fmap. unfold np_assign.
  rewrite decide_True by (by rewrite length_fmap).
  rewrite decide_True by (by rewrite length_np_scale, select_fmap).
  f_equal. by apply assign_scale.
Qed.

Lemma lookup_scale_where (mask : list bool) (c : Qc) (qs : list Qc)
    (i : nat) (b : bool) (q : Qc) :
  mask !! i = Some b -> qs !! i = Some q ->
  scale_where mask c qs !! i = Some (if b then q * c else q).
Proof.
  intros Hb Hq. unfold scale_where. rewrite lookup_zip_with, Hb. simpl.
  by rewrite Hq.
Qed.

Lemma lookup_group (X : list (list float)) (y : list float)
    (label m : float) (i : nat) (row : list float) (l : float) :
  X !! i = Some row -> y !! i = Some l ->
  group X y label m !! i = Some (feqb l label && feqb (mass_of row) m).
Proof.
  intros HX Hy. unfold group, np_eq.
  rewrite lookup_zip_with, !list_lookup_fmap, HX, Hy. done.
Qed.

(** [reweightMass] on finite weights. *)
Lemma reweightMass_fin (X : list (list float)) (y : list float)
    (qs : list Qc) (m : float) (sf : pyval) (c : Qc) :
  Forall (fun r => r ≠ []) X ->
  length X = length y ->
  length qs = length y ->
  to_float sf = Fin c ->
  reweightMass X y (Fin <$> qs) m sf
  = Ok (Fin <$> scale_where (group X y background m) c
                  (scale_where (group X y signal m) c qs)).
Proof.
  intros HX Hlen Hqs Hsf. unfold reweightMass.
  rewrite !class_mass_mask_ok by done.
  pose proof (length_group X y signal m Hlen) as Hs.
  pose proof (length_group X y background m Hlen) as Hb.
  rewrite (scale_selected_fin _ _ c) by (done || congruence).
  rewrite bind_Ok.
  rewrite (scale_selected_fin _ _ c); [done| |done].
  rewrite length_scale_where; lia.
Qed.

Lemma lookup_reweighted (X : list (list float)) (y : list float)
    (qs : list Qc) (m : float) (c : Qc) (i : nat) (row : list float)
    (label : float) (q : Qc) :
  X !! i = Some row -> y !! i = Some label -> qs !! i = Some q ->
  scale_where (group X y background m) c
    (scale_where (group X y signal m) c qs) !! i
  = Some (if rescaled m row label then q * c else q).
Proof.
  intros HX Hy Hq.
  rewrite (lookup_scale_where _ _ _ i _ _ (lookup_group X y _ m i _ _ HX Hy)
             (lookup_scale_where _ _ _ i _ _
                (lookup_group X y _ m i _ _ HX Hy) Hq)).
  f_equal. unfold rescaled.
  destruct (feqb label signal) eqn:Es, (feqb label background) eqn:Eb,
    (feqb (mass_of row) m); simpl; try done.
  apply feqb_eq in Es, Eb. by subst.
Qed.

(** X1.  On finite weights and for a finite scale factor, [reweightMass]
    multiplies by [sf] the weight of every event whose mass (the last
    feature) equals [m] and whose label is 1 or 0, and leaves every other
    weight as it is; the summed weight of the signal and of the background
    events at [m] are both multiplied by [sf]. *)
Theorem reweightMass_scales (X : list (list float)) (y : list float)
    (qs : list Qc) (m : float) (sf : pyval) (c : Qc) :
  Forall (fun r => r ≠ []) X ->
  length X = length y ->
  length qs = length y ->
  to_float sf = Fin c ->
  exists qs',
    reweightMass X y (Fin <$> qs) m sf = Ok (Fin <$> qs')
    /\ length qs' = length qs
    /\ (forall i row label q,
          X !! i = Some row -> y !! i = Some label -> qs !! i = Some q ->
          qs' !! i = Some (if rescaled m row label then q * c else q))
    /\ qsumw (group X y signal m) qs' = qsumw (group X y signal m) qs * c
    /\ qsumw (group X y background m) qs'
       = qsumw (group X y background m) qs * c.
Proof.
  intros HX Hlen Hqs Hsf. eexists. split; [by apply reweightMass_fin|].
  pose proof (length_group X y signal m Hlen) as Hs.
  pose proof (length_group X y background m Hlen) as Hb.
  split; [rewrite !length_scale_where; rewrite ?length_scale_where; lia|].
  split; [intros i row label q; apply lookup_reweighted|].
  assert (disjoint_masks (group X y signal m) (group X y background m)) as Hd
    by (apply disjoint_groups; [done|left; apply signal_neq_background]).
  split.
  - by rewrite qsumw_scale_disjoint, qsumw_scale_same.
  - rewrite qsumw_scale_same. f_equal.
    apply qsumw_scale_disjoint. by apply disjoint_masks_sym.
Qed.




(** ** Signal culling *)

Lemma np_eq_cons (a : float) (y : list float) (v : float) :
  np_eq (a :: y) v = feqb a v :: np_eq y v.
Proof. done. Qed.

(** Every label is counted at most once, and the labels of the two classes
    exactly once. *)
Lemma count_classes_le (y : list float) :
  (count_true (np_eq y signal) + count_true (np_eq y background)
   <= length y)%nat.
Proof.
  induction y as [|a y IH]; [done|].
  rewrite !np_eq_cons, !count_true_cons. simpl.
  destruct (feqb a signal) eqn:Es, (feqb a background) eqn:Eb; try lia.
  apply feqb_eq in Es, Eb. by subst.
Qed.

Lemma count_classes_binary (y : list float) :
  Forall binary y ->
  (count_true (np_eq y signal) + count_true (np_eq y background))%nat
  = length y.
Proof.
  induction 1 as [|a y [-> | ->] _ IH]; [done|..];
    rewrite !np_eq_cons, !count_true_cons; simpl.
  - change (feqb signal signal) with true.
    change (feqb signal background) with false. lia.
  - change (feqb background signal) with false.
    change (feqb background background) with true. lia.
Qed.

Lemma count_classes_other (y : list float) :
  Exists (fun a => feqb a signal = false /\ feqb a background = false) y ->
  (count_true (np_eq y signal) + count_true (np_eq y background)
   < length y)%nat.
Proof.
  induction 1 as [a y [Hs Hb]|a y _ IH];
    rewrite !np_eq_cons, !count_true_cons; simpl.
  - rewrite Hs, Hb. pose proof (count_classes_le y). lia.
  - destruct (feqb a signal) eqn:Es, (feqb a background) eqn:Eb; try lia.
    apply feqb_eq in Es, Eb. by subst.
Qed.

Section np_take_more.
Context {A : Type}.
Implicit Types (arr l : list A) (ids : list nat).

Lemma np_take_app arr ids1 ids2 l1 l2 :
  np_take arr ids1 = Ok l1 -> np_take arr ids2 = Ok l2 ->
  np_take arr (ids1 ++ ids2) = Ok (l1 ++ l2).
Proof.
  revert l1. induction ids1 as [|i ids1 IH]; intros l1 H1 H2.
  - by injection H1 as <-.
  - apply np_take_cons_inv in H1 as (a & l0 & Ha & Hl0 & ->).
    simpl app. apply np_take_cons; [done|by apply IH].
Qed.

Lemma np_take_take arr ids l k :
  np_take arr ids = Ok l -> np_take arr (take k ids) = Ok (take k l).
Proof.
  revert l k. induction ids as [|i ids IH]; intros l k Hl.
  - injection Hl as <-. by destruct k.
  - apply np_take_cons_inv in Hl as (a & l0 & Ha & Hl0 & ->).
    destruct k as [|k]; [done|]. simpl take.
    apply np_take_cons; [done|by apply IH].
Qed.

(** The entries at the selected positions are the selected entries. *)
Lemma np_take_select_from arr mask pre :
  length mask = length arr ->
  np_take (pre ++ arr) (select mask (seq (length pre) (length arr)))
  = Ok (select mask arr).
Proof.
  revert mask pre. induction arr as [|a arr IH]; intros [|b mask] pre Hlen;
    simplify_eq/=; [done|].
  assert (np_take (pre ++ a :: arr)
            (select mask (seq (S (length pre)) (length arr)))
          = Ok (select mask arr)) as Hrest.
  { rewrite (cons_middle a pre arr), app_assoc.
    replace (S (length pre)) with (length (pre ++ [a]))
      by (rewrite length_app; simpl; lia).
    by apply IH. }
  destruct b; [|done].
  apply np_take_cons; [|done].
  by rewrite lookup_app_r, Nat.sub_diag by lia.
Qed.

Lemma np_take_select arr mask :
  length mask = length arr ->
  np_take arr (select mask (seq 0 (length arr))) = Ok (select mask arr).
Proof. intros Hlen. by apply (np_take_select_from arr mask []). Qed.

(** Indexing by indices that were themselves taken by position. *)
Lemma np_take_compose arr ids l js ids' :
  np_take arr ids = Ok l ->
  np_take ids js = Ok ids' ->
  np_take arr ids' = np_take l js.
Proof.
  intros Hl. revert ids'. induction js as [|j js IH]; intros ids' Hjs.
  - by injection Hjs as <-.
  - apply np_take_cons_inv in Hjs as (i & ids0 & Hi & Hids0 & ->).
    simpl. rewrite (IH _ Hids0).
    assert (arr !! i = l !! j) as ->; [|done].
    clear -Hl Hi. revert l j Hl Hi.
    induction ids as [|i0 ids IH]; intros l j Hl Hi; [done|].
    apply np_take_cons_inv in Hl as (a & l0 & Ha & Hl0 & ->).
    destruct j as [|j]; simpl in *; [by simplify_eq|by apply IH].
Qed.
End np_take_more.

Lemma events_labels (X : list (list float)) (y w : list float) :
  length y = length X -> length w = length X ->
  (fun e : list float * (float * float) => e.2.1) <$> events X y w = y.
Proof.
  unfold events. revert y w.
  induction X as [|r X IH]; intros [|a y] [|c w] Hy Hw; simplify_eq/=;
    [done|].
  by rewrite IH.
Qed.

Lemma select_events_labels (X : list (list float)) (y w : list float)
    (label : float) :
  Forall (fun e : list float * (float * float) => e.2.1 = label)
    (select (np_eq y label) (events X y w)).
Proof.
  unfold events. revert y w.
  induction X as [|r X IH]; intros y w;
    [change (zip [] (zip y w)) with (@nil (list float * (float * float)));
     by rewrite select_nil_r|].
  destruct y as [|a y]; [done|].
  destruct w as [|c w];
    [change (zip (r :: X) (zip (a :: y) []))
       with (@nil (list float * (float * float)));
     by rewrite select_nil_r|].
  rewrite np_eq_cons. simpl. destruct (feqb a label) eqn:E; [|apply IH].
  constructor; [by apply feqb_eq in E|apply IH].
Qed.

Lemma labels_replicate (E : list (list float * (float * float)))
    (label : float) :
  Forall (fun e : list float * (float * float) => e.2.1 = label) E ->
  (fun e : list float * (float * float) => e.2.1) <$> E
  = replicate (length E) label.
Proof. induction 1 as [|e E <- _ IH]; [done|]. csimpl. by rewrite IH. Qed.

(** What [cullSignal] does when it returns: the run, in terms of the events
    of the sample. *)
Lemma cullSignal_run (permutation : nat -> list nat) (X : list (list float))
    (y w : list float) :
  length X = length y ->
  length w = length y ->
  Forall binary y ->
  let nsig := count_true (np_eq y signal) in
  let nbkg := count_true (np_eq y background) in
  (nbkg <= nsig)%nat ->
  permutation nsig ≡ₚ seq 0 nsig ->
  exists X' y' w' shuffled,
    cullSignal permutation X y w = Ok (X', y', w')
    /\ shuffled ≡ₚ select (np_eq y signal) (events X y w)
    /\ events X' y' w'
       = select (np_eq y background) (events X y w) ++ take nbkg shuffled
    /\ length X' = (nbkg + nbkg)%nat
    /\ length y' = (nbkg + nbkg)%nat
    /\ length w' = (nbkg + nbkg)%nat.
Proof.
  intros HX Hw Hbin nsig nbkg Hle Hperm.
  pose proof (count_classes_binary y Hbin) as Hn. fold nsig nbkg in Hn.
  set (E := events X y w).
  assert (length E = length y) as HE
    by (unfold E; rewrite length_events; congruence).
  set (si := select (np_eq y signal) (seq 0 (length y))).
  set (bi := select (np_eq y background) (seq 0 (length y))).
  assert (length si = nsig) as Hsi
    by (apply length_select; by rewrite length_np_eq, length_seq).
  assert (length bi = nbkg) as Hbi
    by (apply length_select; by rewrite length_np_eq, length_seq).
  (* the signal positions, in the order drawn *)
  pose proof (np_take_all si) as Hall. rewrite Hsi in Hall.
  destruct (np_take_perm si _ _ (symmetry Hperm) _ Hall)
    as (si' & Hsi' & Hpsi).
  (* the events at the positions *)
  assert (np_take E bi = Ok (select (np_eq y background) E)) as HEb.
  { unfold bi. rewrite <- HE. apply np_take_select.
    by rewrite length_np_eq. }
  assert (np_take E si = Ok (select (np_eq y signal) E)) as HEs.
  { unfold si. rewrite <- HE. apply np_take_select.
    by rewrite length_np_eq. }
  destruct (np_take_perm E _ _ Hpsi _ HEs) as (S' & HS' & HpS).
  pose proof (np_take_take E si' S' nbkg HS') as Hkept.
  pose proof (np_take_app E _ _ _ _ HEb Hkept) as Hsel.
  apply np_take_events in Hsel as Hparts.
  destruct Hparts as (Xs & ys & ws & HXs & Hys & Hws & Hev).
  exists Xs, ys, ws, S'. split.
  { unfold cullSignal. fold nsig nbkg. rewrite Hn. unfold np_arange.
    rewrite !np_select_ok by (by rewrite length_np_eq, length_seq).
    fold si bi. rewrite !bind_Ok. unfold choice_without_replacement.
    rewrite decide_False by lia. rewrite Hsi.
    rewrite (np_take_take _ _ _ nbkg Hsi'), bind_Ok.
    cbn [np_concatenate concat]. rewrite bind_Ok, app_nil_r.
    by rewrite HXs, bind_Ok, Hys, bind_Ok, Hws, bind_Ok. }
  split; [by symmetry|]. split; [by symmetry|].
  assert (length (bi ++ take nbkg si') = (nbkg + nbkg)%nat) as Hlen.
  { rewrite length_app, length_take, Hbi.
    rewrite <- (Permutation_length Hpsi), Hsi. lia. }
  rewrite (np_take_length _ _ _ HXs), (np_take_length _ _ _ Hys),
    (np_take_length _ _ _ Hws). done.
Qed.

(** X3.  On a sample of labels 1 and 0 with at least as many signal as
    background events, [cullSignal] returns the background events, in their
    order, followed by as many signal events, drawn without repetition: the
    result holds as much signal as background, and every event keeps its
    features, its label and its weight. *)
Theorem cullSignal_balanced (permutation : nat -> list nat)
    (X : list (list float)) (y w : list float) :
  length X = length y ->
  length w = length y ->
  Forall binary y ->
  let nsig := count_true (np_eq y signal) in
  let nbkg := count_true (np_eq y background) in
  (nbkg <= nsig)%nat ->
  permutation nsig ≡ₚ seq 0 nsig ->
  exists X' y' w' kept,
    cullSignal permutation X y w = Ok (X', y', w')
    /\ events X' y' w'
       = select (np_eq y background) (events X y w) ++ kept
    /\ kept ⊆+ select (np_eq y signal) (events X y w)
    /\ length kept = nbkg
    /\ y' = replicate nbkg background ++ replicate nbkg signal.
Proof.
  intros HX Hw Hbin nsig nbkg Hle Hperm.
  destruct (cullSignal_run permutation X y w HX Hw Hbin Hle Hperm)
    as (X' & y' & w' & S' & Hrun & HpS & Hev & HlX & Hly & Hlw).
  fold nsig nbkg in Hev, HlX, Hly, Hlw.
  assert (length (events X y w) = length y) as HE
    by (rewrite length_events; congruence).
  assert (length (select (np_eq y signal) (events X y w)) = nsig) as Hns
    by (apply length_select; by rewrite length_np_eq).
  assert (length (select (np_eq y background) (events X y w)) = nbkg) as Hnb
    by (apply length_select; by rewrite length_np_eq).
  assert (take nbkg S' ⊆+ select (np_eq y signal) (events X y w)) as Hsub.
  { rewrite <- HpS. apply sublist_submseteq, sublist_take. }
  assert (length (take nbkg S') = nbkg) as Hk.
  { rewrite length_take, (Permutation_length HpS), Hns. lia. }
  exists X', y', w', (take nbkg S').
  split; [done|]. split; [done|]. split; [done|]. split; [done|].
  rewrite <- (events_labels X' y' w') by congruence.
  rewrite Hev, fmap_app.
  rewrite (labels_replicate _ background), Hnb
    by apply select_events_labels.
  rewrite (labels_replicate _ signal), Hk; [done|].
  apply Forall_forall. intros e He.
  pose proof (select_events_labels X y w signal) as Hall.
  rewrite Forall_forall in Hall. apply Hall.
  by apply (elem_of_submseteq _ _ _ He Hsub).
Qed.

(** X4.  [cullSignal] fails on a sample it cannot balance: with labels 1
    and 0 and more background than signal events, drawing as many signal
    events as there are background events raises [ValueError]; with a label
    that is neither 1 nor 0, the positions counted are fewer than the
    events, and selecting among them raises [IndexError]. *)
Theorem cullSignal_raises (permutation : nat -> list nat)
    (X : list (list float)) (y w : list float) :
  (Forall binary y ->
   (count_true (np_eq y signal) < count_true (np_eq y background))%nat ->
   cullSignal permutation X y w = Raise ValueError)
  /\ (Exists (fun a => feqb a signal = false /\ feqb a background = false) y ->
      cullSignal permutation X y w = Raise IndexError).
Proof.
  split.
  - intros Hbin Hlt. unfold cullSignal.
    rewrite (count_classes_binary y Hbin). unfold np_arange.
    rewrite !np_select_ok by (by rewrite length_np_eq, length_seq).
    rewrite !bind_Ok. unfold choice_without_replacement.
    rewrite decide_True; [done|].
    rewrite length_select by (by rewrite length_np_eq, length_seq). done.
  - intros Hother. pose proof (count_classes_other y Hother) as Hlt.
    assert (forall mask : list bool,
              length mask = length y ->
              np_select
                (np_arange (count_true (np_eq y signal)
                            + count_true (np_eq y background))) mask
              = Raise IndexError) as Hsel.
    { intros mask Hmask. unfold np_select, np_arange.
      rewrite decide_False; [done|]. rewrite length_seq. lia. }
    unfold cullSignal.
    rewrite (Hsel (np_eq y signal)) by apply length_np_eq. reflexivity.
Qed.

(** ** Background shuffling *)

Lemma np_take_in_range {A : Type} (arr : list A) (ids : list nat) :
  Forall (fun i => (i < length arr)%nat) ids ->
  exists l, np_take arr ids = Ok l /\ Forall (fun a => a ∈ arr) l.
Proof.
  induction 1 as [|i ids Hi _ (l & Hl & Hin)]; [by exists []|].
  destruct (lookup_lt_is_Some_2 arr i Hi) as [a Ha].
  exists (a :: l). split; [by apply np_take_cons|].
  constructor; [by eapply list_elem_of_lookup_2|done].
Qed.

Lemma set_last_spec (row : list float) (v : float) :
  removelast (set_last row v) = removelast row
  /\ mass_of (set_last row v) = v.
Proof.
  unfold set_last, mass_of. by rewrite removelast_last, last_snoc.
Qed.

Lemma length_assign_last (mask : list bool) (X : list (list float))
    (vals : list float) :
  length (assign_last mask X vals) = length X.
Proof.
  revert X vals. induction mask as [|b mask IH]; intros [|row X] vals;
    simpl; try done.
  destruct b; [destruct vals|]; simpl; by rewrite IH.
Qed.

(** The rows after [X[mask,-1] = vals]. *)
Lemma assign_last_rows (P : float -> Prop) (mask : list bool)
    (X : list (list float)) (vals : list float) :
  length mask = length X ->
  length vals = count_true mask ->
  Forall P vals ->
  forall (i : nat) (row : list float) (b : bool),
    X !! i = Some row -> mask !! i = Some b ->
    exists row',
      assign_last mask X vals !! i = Some row'
      /\ if b then removelast row' = removelast row /\ P (mass_of row')
         else row' = row.
Proof.
  revert X vals. induction mask as [|b0 mask IH];
    intros [|row0 X] vals Hlen Hvals HP i row b HX Hmask; simplify_eq/=.
  rewrite count_true_cons in Hvals.
  destruct b0.
  - destruct vals as [|v vals]; [simpl in Hvals; lia|].
    apply Forall_cons in HP as [Hv HP].
    destruct i as [|i]; simplify_eq/=.
    + eexists. split; [done|].
      destruct (set_last_spec row v) as [-> ->]. done.
    + by apply (IH X vals).
  - destruct i as [|i]; simplify_eq/=.
    + by eexists.
    + by apply (IH X vals).
Qed.

(** One statement of [shuffleBkg]. *)
Lemma shuffle_masses_reshuffled (self : Model) (randint : list nat)
    (X : list (list float)) (y : list float) :
  Forall (fun r => r ≠ []) X ->
  length X = length y ->
  length randint = count_true (np_eq y background) ->
  Forall (fun i => (i < length (train_masses self))%nat) randint ->
  exists X',
    shuffle_masses self randint X y = Ok X' /\ reshuffled self X y X'.
Proof.
  intros HX Hlen Hn Hrange.
  assert (length (np_eq y background) = length X) as Hmask
    by (by rewrite length_np_eq).
  destruct (np_take_in_range (train_masses self) randint Hrange)
    as (vals & Hvals & Hin).
  pose proof (np_take_length _ _ _ Hvals) as Hlv.
  assert (length (select (np_eq y background) X)
          = count_true (np_eq y background)) as Hsel
    by (by apply length_select).
  exists (assign_last (np_eq y background) X vals). split.
  - unfold shuffle_masses. rewrite np_select_ok, bind_Ok by done.
    rewrite last_column_ok, bind_Ok by (by apply Forall_select).
    rewrite length_fmap, Hsel.
    unfold choice_with_replacement.
    rewrite decide_False.
    2:{ intros [H0 Hne]. destruct randint as [|i randint];
          [simpl in Hn; lia|].
        apply Forall_cons in Hrange as [Hi _]. lia. }
    rewrite Hvals, bind_Ok. unfold np_assign_last.
    rewrite decide_True by done. rewrite decide_True by done.
    rewrite decide_True by congruence. done.
  - split; [apply length_assign_last|].
    intros i row label Hrow Hlabel.
    apply (assign_last_rows (fun v => v ∈ train_masses self)
             (np_eq y background) X vals Hmask ltac:(congruence) Hin
             i row (feqb label background) Hrow).
    unfold np_eq. by rewrite list_lookup_fmap, Hlabel.
Qed.

(** X5.  [shuffleBkg] gives every background event of the training and of
    the test sample a mass drawn from the configured mass points, and
    changes nothing else: the signal events and the other features of the
    background events are as they were, and so is the number of events. *)
Theorem shuffleBkg_masses (self : Model) (randint_train randint_test : list nat)
    (X_train : list (list float)) (y_train : list float)
    (X_test : list (list float)) (y_test : list float) :
  Forall (fun r => r ≠ []) X_train ->
  length X_train = length y_train ->
  length randint_train = count_true (np_eq y_train background) ->
  Forall (fun i => (i < length (train_masses self))%nat) randint_train ->
  Forall (fun r => r ≠ []) X_test ->
  length X_test = length y_test ->
  length randint_test = count_true (np_eq y_test background) ->
  Forall (fun i => (i < length (train_masses self))%nat) randint_test ->
  exists X_train' X_test',
    shuffleBkg self randint_train randint_test X_train y_train X_test y_test
    = Ok (X_train', X_test')
    /\ reshuffled self X_train y_train X_train'
    /\ reshuffled self X_test y_test X_test'.
Proof.
  intros HX1 Hl1 Hn1 Hr1 HX2 Hl2 Hn2 Hr2.
  destruct (shuffle_masses_reshuffled self randint_train X_train y_train)
    as (X1 & Hrun1 & Hre1); [done..|].
  destruct (shuffle_masses_reshuffled self randint_test X_test y_test)
    as (X2 & Hrun2 & Hre2); [done..|].
  exists X1, X2. split; [|done].
  unfold shuffleBkg. by rewrite Hrun1, bind_Ok, Hrun2, bind_Ok.
Qed.

(** ** The data preparation: inflation, then balancing *)







(** *** Weights of selections *)











Section blocks.
Context (yb : list float) (qb : list Qc) (m : float).
Hypothesis Hyb : Forall (fun x => x = background) yb.
Hypothesis Hlen : length qb = length yb.
Hypothesis Hqb : 0 <= qsum qb.

(** The mask of the background events tagged [m] inside the blocks of the
    mass points [ms], and the weights of the blocks. *)
Abbreviation block_mask label ms :=
  (zip_with andb
     (np_eq (concat ((fun _ : float => yb) <$> ms)) label)
     (np_eq (concat ((fun m' : float => replicate (length yb) m') <$> ms)) m)).
Abbreviation block_weights ms := (concat ((fun _ : float => qb) <$> ms)).





End blocks.

(** *** The lengths of the arrays *)






(** *** The sample summary *)




(** *** Balancing, on finite weights *)


(** *** Inflation, then balancing *)

Section inflated.
Context (self : Model) (X : DataFrame) (y : list float) (qs : list Qc).
Hypothesis Hlast : last (columns X) = Some "mass".
Hypothesis HX : length (rows X) = length y.
Hypothesis Hqs : length qs = length y.
Hypothesis Hnn : Forall (fun q => 0 <= q) qs.

Abbreviation sig := (np_eq y signal).
Abbreviation bkg := (np_eq y background).
Abbreviation masses := (train_masses self).

(** The inflated sample. *)
Abbreviation X' :=
  {| columns := columns X;
     rows := select sig (rows X)
             ++ concat ((fun m => (fun r => <["mass" := m]> r)
                                    <$> select bkg (rows X)) <$> masses) |}.
Abbreviation y' :=
  (select sig y ++ concat ((fun _ => select bkg y) <$> masses)).
Abbreviation qs' :=
  (select sig qs ++ concat ((fun _ => select bkg qs) <$> masses)).








End inflated.





(** X8.  [BDT.predict] returns the second column of what [predict_proba]
    returns: one probability per row when every row holds two or more, and
    [IndexError] when some row holds fewer. *)
Theorem BDT_predict_second_column (xgb : Xgboost) (X : DataFrame)
    (b : booster xgb) (proba : list (list float)) :
  predict_proba xgb b (to_numpy X) = Ok proba ->
  (Forall (fun r => (2 <= length r)%nat) proba ->
   exists y_pred,
     BDT_predict xgb X b = Ok y_pred
     /\ length y_pred = length proba
     /\ forall i r, proba !! i = Some r -> y_pred !! i = r !! 1%nat)
  /\ (Exists (fun r => (length r < 2)%nat) proba ->
      BDT_predict xgb X b = Raise IndexError).
Proof.
  intros Hproba. unfold BDT_predict. rewrite Hproba, bind_Ok. clear Hproba.
  split.
  - induction 1 as [|r proba Hr _ (y_pred & Hcol & Hlen & Hat)].
    + by exists [].
    + destruct (lookup_lt_is_Some_2 r 1 ltac:(lia)) as [p Hp].
      exists (p :: y_pred). cbn [column]. rewrite Hp, Hcol, bind_Ok.
      split; [done|]. split; [simpl; by rewrite Hlen|].
      intros [|i] r' Hr'; simplify_eq/=; [done|by apply Hat].
  - induction 1 as [r proba Hr|r proba _ IH]; cbn [column].
    + by rewrite lookup_ge_None_2 by lia.
    + destruct (r !! 1%nat); [|done]. by rewrite IH.
Qed.

(** ** The two policies, on any history *)

Lemma best_epoch_pos (slosses : list float) (e : Z) :
  best_epoch slosses = Ok e -> (1 <= e)%Z.
Proof.
  unfold best_epoch. destruct (np_min slosses) as [v|]; [|done].
  rewrite bind_Ok. destruct (first_index slosses v) as [i|]; [|done].
  rewrite bind_Ok. intros [= <-]. lia.
Qed.

(** X9.  Whatever the history, [shouldEarlyStop] answers [True] only on a
    history of at least [min_epoch] epochs and of more than [grace_epochs]
    epochs: training is never stopped before either. *)
Theorem shouldEarlyStop_not_before (self : Model) (losses : list (list float))
    (min_epoch grace_epochs : Z) (tol : float) :
  shouldEarlyStop self losses min_epoch grace_epochs tol = Ok true ->
  (min_epoch <= Z.of_nat (length losses))%Z
  /\ (grace_epochs < Z.of_nat (length losses))%Z.
Proof.
  unfold shouldEarlyStop.
  destruct (Z.ltb_spec (Z.of_nat (length losses)) min_epoch) as [?|Hmin];
    [done|].
  destruct (np_array losses) as [a|]; [|done]. rewrite bind_Ok.
  destruct (sum_axis1 a) as [s|]; [|done]. rewrite bind_Ok.
  destruct (Z.ltb_spec grace_epochs (Z.of_nat (length losses))) as [Hg|Hg].
  - done.
  - rewrite bind_Ok.
    destruct (best_epoch s) as [e|] eqn:He; [|done]. rewrite bind_Ok.
    apply best_epoch_pos in He.
    destruct (Z.ltb_spec grace_epochs (Z.of_nat (length losses) - e)); [lia|].
    done.
Qed.

(** A sum or a minimum over values one of which is [NaN] is [NaN]. *)
Lemma fadd_NaN_l (x : float) : fadd NaN x = NaN.
Proof. by destruct x. Qed.

Lemma fadd_NaN_r (x : float) : fadd x NaN = NaN.
Proof. by destruct x. Qed.

Lemma fmin_NaN_l (x : float) : fmin NaN x = NaN.
Proof. by destruct x. Qed.

Lemma fmin_NaN_r (x : float) : fmin x NaN = NaN.
Proof. by destruct x. Qed.

Lemma fold_fadd_NaN (l : list float) : fold_left fadd l NaN = NaN.
Proof. induction l as [|x l IH]; [done|]. simpl. by rewrite IH. Qed.

Lemma fold_fmin_NaN (l : list float) : fold_left fmin l NaN = NaN.
Proof. induction l as [|x l IH]; [done|]. simpl. by rewrite IH. Qed.

Lemma fold_fadd_has_NaN (l : list float) (a : float) :
  NaN ∈ l -> fold_left fadd l a = NaN.
Proof.
  revert a. induction l as [|x l IH]; intros a Hin.
  - by apply elem_of_nil in Hin.
  - apply elem_of_cons in Hin as [<-|Hin]; simpl.
    + by rewrite fadd_NaN_r, fold_fadd_NaN.
    + by apply IH.
Qed.

Lemma fold_fmin_has_NaN (l : list float) (a : float) :
  NaN ∈ l -> fold_left fmin l a = NaN.
Proof.
  revert a. induction l as [|x l IH]; intros a Hin.
  - by apply elem_of_nil in Hin.
  - apply elem_of_cons in Hin as [<-|Hin]; simpl.
    + by rewrite fmin_NaN_r, fold_fmin_NaN.
    + by apply IH.
Qed.

Lemma np_sum_NaN (l : list float) : NaN ∈ l -> np_sum l = NaN.
Proof. apply fold_fadd_has_NaN. Qed.

Lemma np_min_NaN (l : list float) : NaN ∈ l -> np_min l = Ok NaN.
Proof.
  intros Hin. destruct l as [|x l]; [by apply elem_of_nil in Hin|].
  cbn [np_min]. f_equal. apply elem_of_cons in Hin as [<-|Hin].
  - apply fold_fmin_NaN.
  - by apply fold_fmin_has_NaN.
Qed.

(** No value equals [NaN]. *)
Lemma first_index_NaN (l : list float) : first_index l NaN = Raise IndexError.
Proof.
  induction l as [|x l IH]; [done|]. cbn [first_index].
  assert (feqb x NaN = false) as -> by (by destruct x). by rewrite IH.
Qed.

Lemma best_epoch_NaN (slosses : list float) :
  NaN ∈ slosses -> best_epoch slosses = Raise IndexError.
Proof.
  intros Hin. unfold best_epoch.
  by rewrite (np_min_NaN _ Hin), bind_Ok, first_index_NaN.
Qed.

Lemma shouldSchedulerStep_raises_on_nan (last : Z)
    (losses : list (list float)) (k : nat) (record : list float) :
  Forall (fun r => length r = k) losses ->
  record ∈ losses ->
  NaN ∈ record ->
  shouldSchedulerStep last losses = Raise IndexError.
Proof.
  intros Hrect Hrec Hnan. unfold shouldSchedulerStep.
  assert (np_array losses = Ok losses) as ->.
  { unfold np_array. destruct losses as [|r0 l]; [done|].
    rewrite decide_True; [done|].
    apply Forall_cons in Hrect as Hr0. destruct Hr0 as [Hr0 _].
    eapply Forall_impl; [exact Hrect|]. intros r Hr. simpl. congruence. }
  rewrite bind_Ok.
  assert (sum_axis1 losses = Ok (np_sum <$> losses)) as ->
    by (destruct losses; [by apply elem_of_nil in Hrec|done]).
  rewrite bind_Ok, best_epoch_NaN; [done|].
  rewrite <- (np_sum_NaN record Hnan). by apply list_elem_of_fmap_2.
Qed.

(** X10.  A loss that is [NaN] anywhere in a history (of records of one
    length) makes [shouldSchedulerStep] raise [IndexError]: the least
    summed loss is then [NaN], which no summed loss equals, and the search
    for its epoch finds none. *)
Theorem shouldSchedulerStep_nan (last : Z) (losses : list (list float))
    (k : nat) (record : list float) :
  Forall (fun r => length r = k) losses ->
  record ∈ losses ->
  NaN ∈ record ->
  shouldSchedulerStep last losses = Raise IndexError.
Proof. apply shouldSchedulerStep_raises_on_nan. Qed.

(** ** The epoch loop, without an interrupt *)

(** What the batching and the loss evaluation can raise is not an
    interrupt. *)
Lemma np_take_exn {A : Type} (arr : list A) (ids : list nat) (e : exn) :
  np_take arr ids = Raise e -> e = IndexError.
Proof.
  induction ids as [|i ids IH]; [done|]. simpl.
  destruct (arr !! i); [|by intros [= <-]].
  destruct (np_take arr ids); [done|]. intros [= <-]. by apply IH.
Qed.

Lemma slices_exn (X : list (list float)) (y w : list float) (batch_size : Z)
    (starts : list Z) (e : exn) :
  slices X y w batch_size starts = Raise e -> e = RuntimeError.
Proof.
  induction starts as [|i starts IH]; [done|]. cbn [slices].
  unfold tensor2 at 1. destruct (decide _); [|by intros [= <-]].
  rewrite bind_Ok.
  destruct (slices X y w batch_size starts); [done|].
  intros [= <-]. by apply IH.
Qed.

Lemma getBatches_exn (X : list (list float)) (y w : list float)
    (batch_size : Z) (shuffle : option (list nat)) (e : exn) :
  getBatches X y w batch_size shuffle = Raise e -> e ≠ KeyboardInterrupt.
Proof.
  unfold getBatches.
  assert (forall X_sh y_sh w_sh,
            (starts ← py_range (Z.of_nat (length X)) batch_size;
             slices X_sh y_sh w_sh batch_size starts) = Raise e ->
            e ≠ KeyboardInterrupt) as Hrest.
  { intros X_sh y_sh w_sh. unfold py_range.
    destruct (_ =? _)%Z; [by intros [= <-]|]. rewrite bind_Ok.
    intros H. by rewrite (slices_exn _ _ _ _ _ _ H). }
  destruct shuffle as [ids|]; [|rewrite bind_Ok; apply Hrest].
  destruct (np_take X ids) as [X_sh|e1] eqn:E1.
  2:{ intros [= <-]. by rewrite (np_take_exn _ _ _ E1). }
  rewrite bind_Ok. destruct (np_take y ids) as [y_sh|e2] eqn:E2.
  2:{ intros [= <-]. by rewrite (np_take_exn _ _ _ E2). }
  rewrite bind_Ok. destruct (np_take w ids) as [w_sh|e3] eqn:E3.
  2:{ intros [= <-]. by rewrite (np_take_exn _ _ _ E3). }
  rewrite !bind_Ok. apply Hrest.
Qed.

Lemma last_column_exn (X : list (list float)) (e : exn) :
  last_column X = Raise e -> e = IndexError.
Proof.
  induction X as [|r X IH]; [done|]. cbn [last_column].
  destruct (last r); [|by intros [= <-]].
  destruct (last_column X); [done|]. intros [= <-]. by apply IH.
Qed.

Lemma np_select_exn {A : Type} (arr : list A) (mask : list bool) (e : exn) :
  np_select arr mask = Raise e -> e = IndexError.
Proof. unfold np_select. destruct (decide _); [done|]. by intros [= <-]. Qed.

Lemma at_mass_exn (X : list (list float)) (y w : list float) (mass : float)
    (e : exn) :
  at_mass X y w mass = Raise e -> e ≠ KeyboardInterrupt.
Proof.
  unfold at_mass. destruct (last_column X) as [col|e0] eqn:E0.
  2:{ intros [= <-]. by rewrite (last_column_exn _ _ E0). }
  rewrite bind_Ok.
  destruct (np_select X _) as [X_m|e1] eqn:E1.
  2:{ intros [= <-]. by rewrite (np_select_exn _ _ _ E1). }
  rewrite bind_Ok.
  destruct (np_select y _) as [y_m|e2] eqn:E2.
  2:{ intros [= <-]. by rewrite (np_select_exn _ _ _ E2). }
  rewrite bind_Ok.
  destruct (np_select w _) as [w_m|e3] eqn:E3; [done|].
  intros [= <-]. by rewrite (np_select_exn _ _ _ E3).
Qed.

Lemma getTotLoss_exn (T : Torch) (X : list (list float)) (y w : list float)
    (batch_size : Z) (g : net T) (e : exn) :
  getTotLoss T X y w batch_size g = Raise e -> e ≠ KeyboardInterrupt.
Proof.
  unfold getTotLoss.
  destruct (getBatches X y w batch_size None) as [batches|e0] eqn:E0.
  - rewrite bind_Ok. by destruct (loss_loop T batches [] g).
  - intros [= <-]. by eapply getBatches_exn.
Qed.

(** The loss evaluation appends one loss per mass point to each of its two
    lists. *)
Lemma mass_losses_spec (T : Torch) (d : Data) (masses : list float)
    (trl tel : list float) (g : net T) :
  match mass_losses T d masses trl tel g with
  | Ok (trl', tel', _) =>
      length trl' = (length trl + length masses)%nat
      /\ length tel' = (length tel + length masses)%nat
  | Raise e => e ≠ KeyboardInterrupt
  end.
Proof.
  revert trl tel g. induction masses as [|mass masses IH]; intros trl tel g.
  - simpl. lia.
  - cbn [mass_losses].
    destruct (at_mass (X_train d) _ _ mass) as [[[X1 y1] w1]|e] eqn:E1.
    2:{ by eapply at_mass_exn. }
    rewrite bind_Ok.
    destruct (getTotLoss T X1 y1 w1 1024 g) as [[l1 g1]|e] eqn:E2.
    2:{ by eapply getTotLoss_exn. }
    rewrite bind_Ok.
    destruct (at_mass (X_test d) _ _ mass) as [[[X2 y2] w2]|e] eqn:E3.
    2:{ by eapply at_mass_exn. }
    rewrite bind_Ok.
    destruct (getTotLoss T X2 y2 w2 1024 g1) as [[l2 g2]|e] eqn:E4.
    2:{ by eapply getTotLoss_exn. }
    rewrite bind_Ok.
    specialize (IH (trl ++ [l1]) (tel ++ [l2]) g2).
    destruct (mass_losses T d masses _ _ g2) as [[[trl' tel'] g']|e];
      [|done].
    rewrite !length_app in IH. simpl in *. lia.
Qed.

Section loop_shape.
Context (T : Torch) (env : Env) (self : Model) (d : Data).
Context (batch_size min_epoch grace_epochs : Z) (tol : float).

Abbreviation body := (epoch_body T env self d batch_size).
Abbreviation loop :=
  (epochs T env self d batch_size min_epoch grace_epochs tol).
Abbreviation at_epoch :=
  (state_at T env self d batch_size min_epoch grace_epochs tol).
Abbreviation n_masses := (length (train_masses self)).

Abbreviation history_shape := (well_shaped T self).

(** What the body of an epoch does to the histories: nothing, when it is
    left by an exception before the appends; one record more on the
    training history only, when the interrupt arrives between the appends;
    one record more on each. *)
Lemma epoch_body_cases (i : nat) (s s' : LoopState T) (o : option exn) :
  body i s = (s', o) ->
  (train_loss s' = train_loss s /\ test_loss s' = test_loss s
   /\ exists e, o = Some e
      /\ (interrupt env = None -> e ≠ KeyboardInterrupt))
  \/ (exists trl,
        train_loss s' = train_loss s ++ [trl]
        /\ test_loss s' = test_loss s
        /\ length trl = n_masses
        /\ o = Some KeyboardInterrupt
        /\ interrupt env = Some (i, BetweenAppends))
  \/ (exists trl tel,
        train_loss s' = train_loss s ++ [trl]
        /\ test_loss s' = test_loss s ++ [tel]
        /\ length trl = n_masses
        /\ length tel = n_masses
        /\ forall e, o = Some e -> interrupt env = None ->
                     e ≠ KeyboardInterrupt).
Proof.
  assert (forall p, interrupted env i p = true -> interrupt env = Some (i, p))
    as Hint.
  { intros p Hp. unfold interrupted in Hp. by apply bool_decide_eq_true in Hp. }
  unfold epoch_body.
  destruct (getBatches _ _ _ _ _) as [batches|e] eqn:Eb.
  2:{ intros [= <- <-]. left. split; [done|]. split; [done|].
      exists e. split; [done|]. intros _. by eapply getBatches_exn. }
  destruct (fit_batches T env i 0 batches (st_net s)) as [g [e|]] eqn:Ef.
  { intros [= <- <-]. left. split; [done|]. split; [done|].
    exists e. split; [done|]. intros Hnone.
    exfalso. clear -Ef Hnone. revert Ef. generalize 0%nat (st_net s).
    induction batches as [|b batches IH]; intros k g0; simpl; [done|].
    unfold interrupted. rewrite Hnone.
    rewrite bool_decide_eq_false_2 by done. apply IH. }
  destruct (interrupted env i InLossEval) eqn:E1.
  { intros [= <- <-]. left. split; [done|]. split; [done|].
    exists KeyboardInterrupt. split; [done|]. intros Hnone.
    apply Hint in E1. congruence. }
  pose proof (mass_losses_spec T d (train_masses self) [] [] g) as Hml.
  destruct (mass_losses T d (train_masses self) [] [] g)
    as [[[trl tel] g1]|e].
  2:{ intros [= <- <-]. left. split; [done|]. split; [done|].
      exists e. split; [done|]. by intros _. }
  destruct Hml as [Htrl Htel]. simpl in Htrl, Htel.
  cbn [train_loss test_loss last_step_epoch st_net].
  destruct (interrupted env i BetweenAppends) eqn:E2.
  { intros [= <- <-]. right. left. exists trl.
    repeat split; try done. by apply Hint. }
  match goal with |- _ -> ?P => set (cases := P) end.
  assert (forall (s1 : LoopState T) (o1 : option exn),
            train_loss s1 = train_loss s ++ [trl] ->
            test_loss s1 = test_loss s ++ [tel] ->
            (forall e, o1 = Some e -> interrupt env = None ->
                       e ≠ KeyboardInterrupt) ->
            (s1, o1) = (s', o) -> cases) as Hboth.
  { intros s1 o1 H1 H2 H3 [= <- <-]. right. right. by exists trl, tel. }
  destruct (interrupted env i InSchedulerStep) eqn:E3.
  { apply Hboth; [done..|]. intros e [= <-] Hnone.
    apply Hint in E3. congruence. }
  destruct (shouldSchedulerStep _ _) as [[step last]|e] eqn:E4.
  2:{ apply Hboth; [done..|]. intros e' [= <-] _.
      by eapply shouldSchedulerStep_exn. }
  destruct (interrupted env i InPlot) eqn:E5.
  { apply Hboth; [done..|]. intros e [= <-] Hnone.
    apply Hint in E5. congruence. }
  apply Hboth; done.
Qed.

Lemma history_shape_snoc (s s' : LoopState T) (trl tel : list float) :
  history_shape s ->
  train_loss s' = train_loss s ++ [trl] ->
  test_loss s' = test_loss s ++ [tel] ->
  length trl = n_masses ->
  length tel = n_masses ->
  history_shape s'.
Proof.
  intros (Hlen & Htr & Hte) H1 H2 Htrl Htel. unfold well_shaped.
  rewrite H1, H2.
  rewrite !length_app, !Forall_app, !Forall_singleton. simpl.
  repeat split; try done. lia.
Qed.

(** The histories the loop returns, from a state of well-shaped
    histories. *)
Lemma epochs_shape (n i : nat) (s : LoopState T)
    (trl tel : list (list float)) :
  history_shape s ->
  loop n i s = Ok (trl, tel) ->
  (length trl <= length (train_loss s) + n)%nat
  /\ (length tel <= length trl <= S (length tel))%nat
  /\ (interrupt env = None ->
      length tel = length trl
      /\ (length trl = (length (train_loss s) + n)%nat
          \/ (min_epoch <= Z.of_nat (length tel))%Z
             /\ (grace_epochs < Z.of_nat (length tel))%Z))
  /\ Forall (fun r => length r = n_masses) trl
  /\ Forall (fun r => length r = n_masses) tel.
Proof.
  revert i s trl tel. induction n as [|n IH]; intros i s trl tel Hs.
  - simpl. intros [= <- <-]. destruct Hs as (Hlen & Htr & Hte).
    repeat split; try done; try lia.
  - cbn [epochs]. destruct (interrupted env i LoopHead); [done|].
    destruct (body i s) as [s' o] eqn:Ebody.
    pose proof (epoch_body_cases i s s' o Ebody) as Hcases.
    destruct Hs as (Hlen & Htr & Hte).
    destruct Hcases
      as [(H1 & H2 & e & -> & Hq)
         |[(r & H1 & H2 & Hr & -> & Hi)
          |(r1 & r2 & H1 & H2 & Hr1 & Hr2 & Hq)]].
    + destruct e; try done. intros [= <- <-]. rewrite H1, H2.
      repeat split; try done; try lia.
      match goal with H : interrupt env = None |- _ => by destruct (Hq H) end.
    + intros [= <- <-]. rewrite H1, H2, length_app. simpl.
      repeat split; try done; try lia; try congruence.
      apply Forall_app. by rewrite Forall_singleton.
    + assert (history_shape s') as Hs'
        by (by eapply (history_shape_snoc s s' r1 r2)).
      assert (length (train_loss s') = S (length (train_loss s))) as Hl1
        by (rewrite H1, length_app; simpl; lia).
      assert (length (test_loss s') = S (length (test_loss s))) as Hl2
        by (rewrite H2, length_app; simpl; lia).
      destruct o as [e|].
      * destruct Hs' as (Hlen' & Htr' & Hte').
        destruct e; try done. intros [= <- <-].
        repeat split; try done; try lia.
        match goal with H : interrupt env = None |- _ =>
          by destruct (Hq _ eq_refl H) end.
      * destruct (interrupted env i InEarlyStop); [done|].
        destruct (shouldEarlyStop self (test_loss s') min_epoch grace_epochs
                    tol) as [[|]|] eqn:Estop; [| |done]; rewrite bind_Ok.
        -- destruct Hs' as (Hlen' & Htr' & Hte'). intros [= <- <-].
           assert ((min_epoch <= Z.of_nat (length (test_loss s')))%Z
                   /\ (grace_epochs < Z.of_nat (length (test_loss s')))%Z)
             as Hlate.
           { clear -Estop. unfold shouldEarlyStop in Estop.
             destruct (Z.ltb_spec (Z.of_nat (length (test_loss s')))
                         min_epoch) as [?|Hmin]; [done|].
             destruct (np_array (test_loss s')) as [a|]; [|done].
             rewrite bind_Ok in Estop.
             destruct (sum_axis1 a) as [sl|]; [|done].
             rewrite bind_Ok in Estop.
             destruct (Z.ltb_spec grace_epochs
                         (Z.of_nat (length (test_loss s')))) as [Hg|Hg];
               [done|].
             rewrite bind_Ok in Estop.
             destruct (best_epoch sl) as [e|] eqn:He; [|done].
             rewrite bind_Ok in Estop.
             apply best_epoch_pos in He.
             destruct (Z.ltb_spec grace_epochs
                         (Z.of_nat (length (test_loss s')) - e)); [lia|].
             done. }
           repeat split; try done; try lia.
        -- intros Hrun.
           destruct (IH (S i) s' trl tel Hs' Hrun)
             as (Hb1 & Hb2 & Hb3 & Hb4 & Hb5).
           repeat split; try done; try lia.
           ++ by apply Hb3.
           ++ match goal with H : interrupt env = None |- _ =>
                destruct (Hb3 H) as [? [?|?]] end; [left; lia|by right].
Qed.

(** The state on entry to an epoch has well-shaped histories. *)
Lemma state_at_shape (s0 s : LoopState T) (k : nat) :
  history_shape s0 -> at_epoch s0 k = Some s -> history_shape s.
Proof.
  intros Hs0. revert s. induction k as [|k IH]; intros s Hat.
  - by injection Hat as <-.
  - simpl in Hat.
    destruct (at_epoch s0 k) as [s1|] eqn:E1; [|done].
    destruct (interrupted env k LoopHead); [done|].
    destruct (body k s1) as [s2 [e|]] eqn:Ebody; [done|].
    destruct (interrupted env k InEarlyStop); [done|].
    destruct (shouldEarlyStop self (test_loss s2) min_epoch grace_epochs tol)
      as [[|]|]; try done.
    injection Hat as <-.
    destruct (epoch_body_cases k s1 s2 None Ebody)
      as [(_ & _ & e & He & _)
         |[(r & _ & _ & _ & He & _)
          |(r1 & r2 & H1 & H2 & Hr1 & Hr2 & _)]]; [done..|].
    by eapply (history_shape_snoc s1 s2 r1 r2); [apply IH|..].
Qed.

Lemma fit_batches_quiet (i k : nat) (batches : list batch) (g : net T) :
  interrupt env = None ->
  fit_batches T env i k batches g
  = ((fit_batches T env i k batches g).1, None).
Proof.
  intros Hnone. revert k g.
  induction batches as [|b batches IH]; intros k g; simpl; [done|].
  unfold interrupted. rewrite Hnone.
  rewrite bool_decide_eq_false_2 by done. apply IH.
Qed.

(** An epoch whose training losses hold a [NaN] ends in the scheduler
    query. *)
Lemma epoch_body_nan (i : nat) (s : LoopState T) (batches : list batch)
    (trl tel : list float) (g' : net T) :
  interrupt env = None ->
  history_shape s ->
  getBatches (X_train d) (y_train d) (w_train d) batch_size
    (Some (permutation env i (length (X_train d)))) = Ok batches ->
  mass_losses T d (train_masses self) [] []
    (fit_batches T env i 0 batches (st_net s)).1 = Ok (trl, tel, g') ->
  NaN ∈ trl ->
  exists s', body i s = (s', Some IndexError).
Proof.
  intros Hnone (Hlen & Htr & Hte) Hb Hml Hnan.
  assert (forall p, interrupted env i p = false) as Hq.
  { intros p. unfold interrupted. rewrite Hnone.
    by apply bool_decide_eq_false_2. }
  pose proof (mass_losses_spec T d (train_masses self) [] []
                (fit_batches T env i 0 batches (st_net s)).1) as Hspec.
  rewrite Hml in Hspec. destruct Hspec as [Htrl _]. simpl in Htrl.
  unfold epoch_body. rewrite Hb, fit_batches_quiet by done.
  rewrite !Hq, Hml. cbn [train_loss test_loss last_step_epoch st_net].
  rewrite (shouldSchedulerStep_raises_on_nan _ _ n_masses trl).
  - by eexists.
  - apply Forall_app. by rewrite Forall_singleton.
  - apply elem_of_app. right. by left.
  - done.
Qed.
End loop_shape.

(** X11.  The histories [train] returns are well shaped: at most
    [max_epochs] records each, every record holding one loss per mass
    point, and as many test records as training records, or one fewer (when
    an interrupt arrived between the two appends, the only way to that). *)
Theorem train_history_shape (T : Torch) (env : Env) (self : Model)
    (Xtrain : DataFrame) (ytrain : list float)
    (Xtest : DataFrame) (ytest wtrain wtest : list float)
    (max_epochs batch_size min_epoch grace_epochs : Z) (tol : float)
    (g0 : net T) (trl tel : list (list float)) :
  train T env self Xtrain ytrain Xtest ytest wtrain wtest
    max_epochs batch_size min_epoch grace_epochs tol g0 = Ok (trl, tel) ->
  (length trl <= Z.to_nat max_epochs)%nat
  /\ (length tel <= length trl <= S (length tel))%nat
  /\ (interrupt env = None -> length tel = length trl)
  /\ Forall (fun r => length r = length (train_masses self)) trl
  /\ Forall (fun r => length r = length (train_masses self)) tel.
Proof.
  unfold train.
  destruct (prepare _ _ _ _ _ _ _) as [d|]; [|done]. rewrite bind_Ok.
  intros Hrun.
  apply epochs_shape in Hrun as (H1 & H2 & H3 & H4 & H5).
  - repeat split; try done; try lia. by apply H3.
  - by repeat split.
Qed.

(** X12.  Without an interrupt, [train] returns only after [max_epochs]
    epochs, or after a number of epochs that is at least [min_epoch] and
    more than [grace_epochs]: early stopping never ends a run before. *)
Theorem train_not_stopped_early (T : Torch) (env : Env) (self : Model)
    (Xtrain : DataFrame) (ytrain : list float)
    (Xtest : DataFrame) (ytest wtrain wtest : list float)
    (max_epochs batch_size min_epoch grace_epochs : Z) (tol : float)
    (g0 : net T) (trl tel : list (list float)) :
  interrupt env = None ->
  train T env self Xtrain ytrain Xtest ytest wtrain wtest
    max_epochs batch_size min_epoch grace_epochs tol g0 = Ok (trl, tel) ->
  length tel = length trl
  /\ (length trl = Z.to_nat max_epochs
      \/ (min_epoch <= Z.of_nat (length trl))%Z
         /\ (grace_epochs < Z.of_nat (length trl))%Z).
Proof.
  intros Hnone. unfold train.
  destruct (prepare _ _ _ _ _ _ _) as [d|]; [|done]. rewrite bind_Ok.
  intros Hrun.
  apply epochs_shape in Hrun as (_ & _ & H3 & _); [|by repeat split].
  destruct (H3 Hnone) as [Heq Hor]. split; [done|].
  rewrite Heq in Hor. simpl in Hor. done.
Qed.

(** X13.  A training loss that is [NaN] ends the run with an exception:
    when, in an epoch the loop gets to, the loss of some mass point on the
    training sample is [NaN], the scheduler query that follows raises
    [IndexError], which the [try] statement does not catch, and [train]
    raises it. *)
Theorem train_nan_loss (T : Torch) (env : Env) (self : Model)
    (Xtrain : DataFrame) (ytrain : list float)
    (Xtest : DataFrame) (ytest wtrain wtest : list float)
    (max_epochs batch_size min_epoch grace_epochs : Z) (tol : float)
    (g0 : net T) (d : Data) (k : nat) (s : LoopState T)
    (batches : list batch) (trl tel : list float) (g' : net T) :
  prepare self Xtrain ytrain Xtest ytest wtrain wtest = Ok d ->
  interrupt env = None ->
  (k < Z.to_nat max_epochs)%nat ->
  state_at T env self d batch_size min_epoch grace_epochs tol
    (Build_LoopState g0 [] [] 0) k = Some s ->
  getBatches (X_train d) (y_train d) (w_train d) batch_size
    (Some (permutation env k (length (X_train d)))) = Ok batches ->
  mass_losses T d (train_masses self) [] []
    (fit_batches T env k 0 batches (st_net s)).1 = Ok (trl, tel, g') ->
  NaN ∈ trl ->
  train T env self Xtrain ytrain Xtest ytest wtrain wtest
    max_epochs batch_size min_epoch grace_epochs tol g0
  = Raise IndexError.
Proof.
  intros Hprep Hnone Hk Hat Hb Hml Hnan.
  assert (well_shaped T self (Build_LoopState g0 [] [] 0)) as Hs0
    by (by repeat split).
  pose proof (state_at_shape _ _ _ _ _ _ _ _ _ s k Hs0 Hat) as Hs.
  destruct (epoch_body_nan T env self d batch_size k s batches trl tel g'
              Hnone Hs Hb Hml Hnan) as [s' Hbody].
  unfold train. rewrite Hprep, bind_Ok.
  replace (Z.to_nat max_epochs) with (k + S (Z.to_nat max_epochs - S k))%nat
    by lia.
  rewrite (epochs_from _ _ _ _ _ _ _ _ _ s k _ Hat).
  cbn [epochs]. unfold interrupted at 1. rewrite Hnone.
  rewrite bool_decide_eq_false_2 by done. by rewrite Hbody.
Qed.

(** ** The batches, one by one *)

Lemma slices_inv (X : list (list float)) (y w : list float) (batch_size : Z)
    (starts : list Z) (batches : list batch) :
  slices X y w batch_size starts = Ok batches ->
  batches
  = (fun i =>
       let stop := Some (i + batch_size)%Z in
       (single2 (py_slice X (Some i) stop),
        single1 (py_slice y (Some i) stop),
        single1 (py_slice w (Some i) stop))) <$> starts.
Proof.
  revert batches. induction starts as [|i starts IH]; intros batches.
  - by intros [= <-].
  - cbn [slices]. unfold tensor2 at 1. destruct (decide _); [|done].
    rewrite bind_Ok.
    destruct (slices X y w batch_size starts) as [rest|]; [|done].
    rewrite bind_Ok. intros [= <-]. by rewrite (IH rest eq_refl).
Qed.

Lemma ceil_div_last (n b : Z) (k : nat) :
  (0 < b)%Z -> (0 <= n)%Z ->
  (k < Z.to_nat (ceil_div n b))%nat -> (Z.of_nat k * b < n)%Z.
Proof.
  intros Hb Hn Hk. rewrite <- ceil_div_spec in Hk by done.
  assert (Z.of_nat k + 1 <= (n + b - 1) / b)%Z as Hle.
  { assert (0 <= (n + b - 1) / b)%Z by (apply Z.div_pos; lia). lia. }
  pose proof (Z.mul_div_le (n + b - 1) b Hb) as Hmul. nia.
Qed.

(** The batches cut from arrays of one length, whatever the order they were
    brought into. *)
Lemma sliced_sizes (X : list (list float)) (y w : list float)
    (batch_size : Z) (n : nat) (batches : list batch) :
  (0 < batch_size)%Z ->
  length X = n -> length y = n -> length w = n ->
  (starts ← py_range (Z.of_nat n) batch_size;
   slices X y w batch_size starts) = Ok batches ->
  forall (k : nat) (b : batch),
    batches !! k = Some b ->
    length b.1.1 = Nat.min (Z.to_nat batch_size) (n - k * Z.to_nat batch_size)
    /\ length b.1.2 = length b.1.1
    /\ length b.2 = length b.1.1
    /\ (0 < length b.1.1)%nat.
Proof.
  intros HB HX Hy Hw. rewrite py_range_pos, bind_Ok by done.
  intros Hs. apply slices_inv in Hs as ->. intros k b Hk.
  rewrite <- list_fmap_compose, list_lookup_fmap in Hk.
  destruct (seq 0 _ !! k) as [k'|] eqn:Ek; [|done].
  apply lookup_seq in Ek as [-> Hlt]. simpl in Hk. injection Hk as <-.
  pose proof (ceil_div_last (Z.of_nat n) batch_size k HB ltac:(lia) Hlt).
  cbn [fst snd]. unfold single2, single1.
  rewrite !py_slice_take_drop by lia.
  rewrite !length_fmap, !length_take, !length_drop, HX, Hy, Hw.
  replace (Z.to_nat (Z.of_nat k * batch_size))
    with (k * Z.to_nat batch_size)%nat by lia.
  repeat split; try done. nia.
Qed.

(** X14.  The batches [getBatches] yields from arrays of one length [N],
    for a batch size [B > 0], with or without shuffling: batch [k] (from 0)
    holds [min(B, N - k*B)] events, which is [B] for every batch but
    possibly the last and never zero, and as many labels and weights as
    rows. *)
Theorem getBatches_sizes (X : list (list float)) (y w : list float)
    (batch_size : Z) (shuffle : option (list nat)) (batches : list batch) :
  (0 < batch_size)%Z ->
  length y = length X ->
  length w = length X ->
  (forall ids, shuffle = Some ids -> length ids = length X) ->
  getBatches X y w batch_size shuffle = Ok batches ->
  forall (k : nat) (b : batch),
    batches !! k = Some b ->
    length b.1.1
    = Nat.min (Z.to_nat batch_size) (length X - k * Z.to_nat batch_size)
    /\ length b.1.2 = length b.1.1
    /\ length b.2 = length b.1.1
    /\ (0 < length b.1.1)%nat.
Proof.
  intros HB Hy Hw Hids. unfold getBatches. destruct shuffle as [ids|].
  - specialize (Hids ids eq_refl).
    destruct (np_take X ids) as [X_sh|] eqn:E1; [|done]. rewrite bind_Ok.
    destruct (np_take y ids) as [y_sh|] eqn:E2; [|done]. rewrite bind_Ok.
    destruct (np_take w ids) as [w_sh|] eqn:E3; [|done]. rewrite !bind_Ok.
    apply np_take_length in E1, E2, E3.
    apply sliced_sizes; congruence.
  - rewrite bind_Ok. by apply sliced_sizes.
Qed.

(** X15.  A batch size that is not positive: with [batch_size = 0] the
    range of the batch starts cannot be built and [getBatches] raises
    [ValueError]; with a negative [batch_size] the range is empty and
    [getBatches] yields no batch at all, whatever the arrays hold. *)
Theorem getBatches_bad_batch_size (X : list (list float)) (y w : list float)
    (batch_size : Z) :
  ((batch_size = 0)%Z ->
   getBatches X y w batch_size None = Raise ValueError)
  /\ ((batch_size < 0)%Z -> getBatches X y w batch_size None = Ok []).
Proof.
  unfold getBatches. rewrite bind_Ok. unfold py_range. split.
  - intros ->. done.
  - intros Hneg.
    destruct (Z.eqb_spec batch_size 0) as [?|_]; [lia|].
    destruct (Z.ltb_spec 0 batch_size) as [?|_]; [lia|].
    rewrite bind_Ok.
    assert ((- Z.of_nat (length X) + - batch_size - 1) / - batch_size < 1)%Z
      as Hle.
    { apply Z.div_lt_upper_bound; lia. }
    replace (Z.to_nat _) with 0%nat by lia. done.
Qed.

(** ** The batched loss *)

Lemma fadd_zero_l (x : float) : fadd (Fin 0) x = x.
Proof. destruct x as [q| | |]; try done. simpl. f_equal. ring. Qed.

(** X16.  [getTotLoss] on a sample that fits one batch (arrays of one
    length [N], with [0 < N <= batch_size]) is the loss of the network on
    the whole sample, in single precision; on a sample without events it is
    zero, and the network is not evaluated. *)
Theorem getTotLoss_one_batch (T : Torch) (X : list (list float))
    (y w : list float) (batch_size : Z) (g : net T) :
  (0 < batch_size)%Z ->
  length y = length X ->
  length w = length X ->
  Forall (fun r => r ≠ []) X ->
  (Z.of_nat (length X) <= batch_size)%Z ->
  getTotLoss T X y w batch_size g
  = match X with
    | [] => Ok (Fin 0, g)
    | _ :: _ =>
        let '(out, g) := forward T g (single2 X) in
        Ok (loss_function T out (single1 y) (single1 w), g)
    end.
Proof.
  intros HB Hy Hw HX Hfit. unfold getTotLoss, getBatches.
  rewrite bind_Ok, py_range_pos, bind_Ok, slices_ok by done.
  destruct X as [|r X].
  - replace (Z.to_nat (ceil_div (Z.of_nat (length (@nil (list float))))
                         batch_size)) with 0%nat; [done|].
    rewrite <- ceil_div_spec by done. simpl.
    rewrite Z.div_small; lia.
  - replace (Z.to_nat (ceil_div (Z.of_nat (length (r :: X))) batch_size))
      with 1%nat.
    2:{ rewrite <- ceil_div_spec by done.
        assert ((Z.of_nat (length (r :: X)) + batch_size - 1) / batch_size
                = 1)%Z as ->; [|done].
        symmetry.
        apply (Z.div_unique_pos _ _ _ (Z.of_nat (length (r :: X)) - 1));
          simpl length in *; lia. }
    cbn [seq fmap list_fmap]. rewrite bind_Ok.
    rewrite !py_slice_take_drop by lia.
    rewrite !drop_0, !take_ge by lia.
    cbn [loss_loop]. destruct (forward T g (single2 (r :: X))) as [out g1].
    cbn [app]. unfold np_sum. cbn [fold_left]. by rewrite fadd_zero_l.
Qed.

(** ** The sample summary and the mass points *)






(** ** The weights stay weights *)



(** ** The mean squared error *)




(** ** Early stopping: the instability check *)






(** ** The fallback of [getROC] *)

Lemma zip_with_Fin (f : float -> float -> float) (h : Qc -> Qc -> Qc)
    (l k : list Qc) :
  (forall a b, f (Fin a) (Fin b) = Fin (h a b)) ->
  zip_with f (Fin <$> l) (Fin <$> k) = Fin <$> zip_with h l k.
Proof.
  intros Hfh. revert k. induction l as [|a l IH]; intros [|b k]; csimpl;
    try done.
  by rewrite Hfh, IH.
Qed.

Lemma zip_with_take_r {A B C : Type} (f : A -> B -> C) (l : list A)
    (k : list B) (n : nat) :
  (length l <= n)%nat -> zip_with f l (take n k) = zip_with f l k.
Proof.
  revert k n. induction l as [|a l IH]; intros [|b k] [|n] Hn; simpl in *;
    try done; try lia.
  f_equal. apply IH. lia.
Qed.

Lemma py_slice_from_1 {A : Type} (l : list A) :
  py_slice l (Some 1%Z) None = drop 1 l.
Proof.
  unfold py_slice, clamp_index. cbn [from_option].
  destruct (Z.ltb_spec 1 0) as [?|_]; [lia|].
  destruct l as [|a l]; [done|].
  replace (Z.to_nat (Z.min 1 (Z.of_nat (length (a :: l))))) with 1%nat
    by (simpl length; lia).
  apply take_ge. rewrite length_drop. simpl length. lia.
Qed.

Lemma py_slice_to_last {A : Type} (l : list A) :
  py_slice l None (Some (-1)%Z) = take (length l - 1) l.
Proof.
  unfold py_slice, clamp_index. cbn [from_option].
  destruct (Z.ltb_spec (-1) 0) as [_|?]; [|lia].
  rewrite drop_0. f_equal. lia.
Qed.

Lemma Qc_two_neq_0 : (2 : Qc) ≠ 0.
Proof. done. Qed.

(** The terms of the trapezoidal rule, summed. *)
Lemma trapezoid_terms (xs ys : list Qc) :
  length xs = length ys ->
  qsum ((fun q => q / 2)
          <$> zip_with Qcmult
                (zip_with (fun a b => b - a) xs (drop 1 xs))
                (zip_with Qcplus (drop 1 ys) ys))
  = trapezoid xs ys.
Proof.
  revert ys. induction xs as [|x0 xs IH]; intros [|y0 ys] Hlen;
    simplify_eq/=; [done|].
  destruct xs as [|x1 xs], ys as [|y1 ys]; simplify_eq/=; [done|].
  rewrite qsum_cons. f_equal.
  specialize (IH (y1 :: ys)). simpl in IH. rewrite drop_0 in *.
  apply IH. by f_equal.
Qed.

(** [np.trapz] on finite values. *)
Lemma np_trapz_Fin (xs ys : list Qc) :
  length xs = length ys ->
  np_trapz (Fin <$> ys) (Fin <$> xs) = Ok (Fin (trapezoid xs ys)).
Proof.
  intros Hlen. unfold np_trapz, np_diff.
  rewrite py_slice_from_1, py_slice_to_last, length_fmap.
  rewrite <- !fmap_drop, <- fmap_take.
  rewrite (zip_with_Fin _ (fun a b => b - a)) by done.
  rewrite (zip_with_Fin _ Qcplus) by done.
  rewrite zip_with_take_r by (rewrite length_drop; lia).
  unfold np_mul. rewrite decide_True.
  2:{ rewrite !length_fmap, !length_zip_with, !length_drop. lia. }
  rewrite (zip_with_Fin _ Qcmult) by done. rewrite bind_Ok.
  rewrite <- list_fmap_compose.
  rewrite (list_fmap_ext _ (Fin ∘ (fun q => q / 2))).
  2:{ intros i q _. simpl. apply fdiv_Fin, Qc_two_neq_0. }
  rewrite list_fmap_compose, np_sum_Fin.
  by rewrite trapezoid_terms.
Qed.

Lemma Qc_half_mean (y0 y1 : Qc) :
  0 <= y0 <= 1 -> 0 <= y1 <= 1 -> 0 <= (y1 + y0) / 2 <= 1.
Proof.
  intros [H0 H0'] [H1 H1'].
  assert (0 <= / 2) as Hhalf by done.
  split.
  - unfold Qcdiv. apply Qcmult_nonneg_nonneg; [|done].
    replace 0 with (0 + 0) by ring. by apply Qcplus_le_compat.
  - assert (1 = (1 + 1) / 2) as -> by (by apply Qc_is_canon).
    unfold Qcdiv. apply Qcmult_le_compat_r; [|done].
    by apply Qcplus_le_compat.
Qed.

Lemma trapezoid_bounds_from (x0 : Qc) (xs ys : list Qc) (xl : Qc) :
  length (x0 :: xs) = length ys ->
  nondecreasing (x0 :: xs) ->
  Forall (fun y => 0 <= y <= 1) ys ->
  last (x0 :: xs) = Some xl ->
  0 <= trapezoid (x0 :: xs) ys <= xl - x0.
Proof.
  revert x0 ys. induction xs as [|x1 xs IH]; intros x0 ys Hlen Hmono Hys Hlast.
  - destruct ys as [|y0 ys]; [done|]. injection Hlast as <-.
    assert (x0 - x0 = 0) as -> by ring. by destruct ys.
  - destruct ys as [|y0 [|y1 ys]]; try done.
    apply Forall_cons in Hys as [Hy0 Hys].
    pose proof Hys as Hys'. apply Forall_cons in Hys' as [Hy1 _].
    assert (x0 <= x1) as Hstep by (by apply (Hmono 0%nat)).
    destruct (IH x1 (y1 :: ys)) as [Hlo Hhi]; try done.
    { simpl in *. lia. }
    { intros i a a' Ha Ha'. by apply (Hmono (S i)). }
    destruct (Qc_half_mean y0 y1 Hy0 Hy1) as [Hm0 Hm1].
    assert (0 <= x1 - x0) as Hd.
    { unfold Qcminus. by apply Qcle_minus_iff in Hstep. }
    cbn [trapezoid].
    assert ((x1 - x0) * (y1 + y0) / 2 = (x1 - x0) * ((y1 + y0) / 2)) as ->
      by (unfold Qcdiv; ring).
    split.
    + replace 0 with (0 + 0) by ring.
      apply Qcplus_le_compat; [by apply Qcmult_nonneg_nonneg|done].
    + assert (xl - x0 = (x1 - x0) * 1 + (xl - x1)) as -> by ring.
      apply Qcplus_le_compat; [|done].
      rewrite !(Qcmult_comm (x1 - x0)). by apply Qcmult_le_compat_r.
Qed.

Lemma trapezoid_bounds (xs ys : list Qc) (x0 xl : Qc) :
  length xs = length ys ->
  nondecreasing xs ->
  Forall (fun y => 0 <= y <= 1) ys ->
  head xs = Some x0 ->
  last xs = Some xl ->
  0 <= trapezoid xs ys <= xl - x0.
Proof.
  intros Hlen Hmono Hys Hhead Hlast.
  destruct xs as [|x xs]; [done|]. injection Hhead as ->.
  by apply trapezoid_bounds_from.
Qed.

(** X21.  The fallback of [getROC] on a curve of finite points: when
    [roc_auc_score] raises, the AUC returned is the area under the curve by
    the trapezoidal rule; for a curve whose false-positive rates do not
    decrease and run from 0 to 1, and whose true-positive rates lie between
    0 and 1, that area lies between 0 and 1. *)
Theorem getROC_fallback_bounded (sk : Sklearn)
    (predict_X : DataFrame -> result (list float)) (X : DataFrame)
    (y : list float) (weight : option (list float))
    (predictions t : list float) (fpr tpr : list Qc) (e : exn) :
  predict_X X = Ok predictions ->
  roc_curve sk y predictions weight = Ok (Fin <$> fpr, Fin <$> tpr, t) ->
  roc_auc_score sk y predictions weight = Raise e ->
  length fpr = length tpr ->
  getROC sk predict_X X y weight
  = Ok (Fin <$> fpr, Fin <$> tpr, Fin (trapezoid fpr tpr))
  /\ (nondecreasing fpr ->
      head fpr = Some 0 ->
      last fpr = Some 1 ->
      Forall (fun r => 0 <= r <= 1) tpr ->
      0 <= trapezoid fpr tpr <= 1).
Proof.
  intros Hpred Hcurve Hauc Hlen. split.
  - unfold getROC. rewrite Hpred, bind_Ok, Hcurve, bind_Ok, Hauc.
    by rewrite np_trapz_Fin, bind_Ok.
  - intros Hmono Hhead Hlast Htpr.
    pose proof (trapezoid_bounds fpr tpr 0 1 Hlen Hmono Htpr Hhead Hlast)
      as Hb.
    assert (1 - 0 = 1) as Heq by ring. by rewrite Heq in Hb.
Qed.

(** ** Prediction with a batch size that is not positive *)

Lemma py_range_negative (stop step : Z) :
  (0 <= stop)%Z -> (step < 0)%Z -> py_range stop step = Ok [].
Proof.
  intros Hstop Hneg. unfold py_range.
  destruct (Z.eqb_spec step 0) as [?|_]; [lia|].
  destruct (Z.ltb_spec 0 step) as [?|_]; [lia|].
  assert ((- stop + - step - 1) / - step < 1)%Z as Hle
    by (apply Z.div_lt_upper_bound; lia).
  replace (Z.to_nat _) with 0%nat by lia. done.
Qed.

(** X22.  [predict] needs a positive batch size: with [batch_size = 0] the
    range of the batch starts cannot be built, with a negative [batch_size]
    it is empty and there is nothing to concatenate; either way [predict]
    raises [ValueError], whatever the frame holds. *)
Theorem predict_bad_batch_size (T : Torch) (X : DataFrame) (batch_size : Z)
    (g : net T) :
  (batch_size <= 0)%Z -> predict T X batch_size g = Raise ValueError.
Proof.
  intros Hle. unfold predict.
  destruct (Z.eq_dec batch_size 0) as [->|Hne]; [done|].
  by rewrite py_range_negative by lia.
Qed.

(** ** Early stopping: the progress check *)




(** * The further properties at concrete inputs *)

Lemma fair_qs_nonneg : Forall (fun q => 0 <= q) fair_qs.
Proof. repeat constructor; by vm_compute. Qed.

(** X1 on the fair sample: the weights at mass [1/2] times 100. *)
Lemma reweightMass_scales_witness :
  exists qs',
    reweightMass fair_X fair_y (Fin <$> fair_qs) (frac 1 2) (PyInt 100)
    = Ok (Fin <$> qs')
    /\ qs' !! 0%nat = Some (Z2Qc 1 * Z2Qc 100)
    /\ qs' !! 1%nat = Some (Z2Qc 3).
Proof.
  destruct (reweightMass_scales fair_X fair_y fair_qs (frac 1 2) (PyInt 100)
              (Z2Qc 100))
    as (qs' & Hrun & _ & Hat & _).
  - apply fair_sample_rows.
  - reflexivity.
  - reflexivity.
  - reflexivity.
  - exists qs'. split; [exact Hrun|]. split.
    + apply (Hat 0%nat [frac 3 1; frac 1 2] signal (Z2Qc 1)); reflexivity.
    + apply (Hat 1%nat [frac 3 1; frac 1 1] signal (Z2Qc 3)); reflexivity.
Defined.


Lemma cull_y_binary : Forall binary cull_y.
Proof. repeat constructor; (by left) || (by right). Qed.

(** X3 on the sample of three signal events and one background event. *)
Lemma cullSignal_balanced_witness :
  exists X' y' w' kept,
    cullSignal backwards cull_X cull_y cull_w = Ok (X', y', w')
    /\ length kept = 1%nat
    /\ events X' y' w'
       = [([frac 2 1; frac 1 2], (background, frac 2 1))] ++ kept
    /\ y' = [background; signal].
Proof.
  destruct (cullSignal_balanced backwards cull_X cull_y cull_w)
    as (X' & y' & w' & kept & Hrun & Hev & _ & Hlen & Hy).
  - reflexivity.
  - reflexivity.
  - apply cull_y_binary.
  - vm_compute. lia.
  - apply reverse_Permutation.
  - exists X', y', w', kept. split; [exact Hrun|]. split; [exact Hlen|].
    split; [exact Hev|exact Hy].
Defined.

(** X4 on the sample with the classes swapped, and with a label 2. *)
Lemma cullSignal_raises_witness :
  cullSignal backwards cull_X [background; signal; background; background]
    cull_w = Raise ValueError
  /\ cullSignal backwards cull_X [signal; frac 2 1; signal; signal] cull_w
     = Raise IndexError.
Proof.
  split.
  - apply (cullSignal_raises backwards cull_X
             [background; signal; background; background] cull_w).
    + repeat constructor; (by left) || (by right).
    + vm_compute. lia.
  - apply (cullSignal_raises backwards cull_X
             [signal; frac 2 1; signal; signal] cull_w).
    apply Exists_cons_tl, Exists_cons_hd. split; reflexivity.
Defined.

(** X5 on the fair sample: the two background events get the masses drawn,
    [1] and [1/2]. *)
Lemma shuffleBkg_masses_witness :
  exists X_train' X_test',
    shuffleBkg two_masses [1; 0]%nat [0; 0]%nat fair_X fair_y fair_X fair_y
    = Ok (X_train', X_test')
    /\ reshuffled two_masses fair_X fair_y X_train'
    /\ reshuffled two_masses fair_X fair_y X_test'.
Proof.
  apply (shuffleBkg_masses two_masses [1; 0]%nat [0; 0]%nat
           fair_X fair_y fair_X fair_y).
  - apply fair_sample_rows.
  - reflexivity.
  - reflexivity.
  - repeat constructor; simpl; lia.
  - apply fair_sample_rows.
  - reflexivity.
  - reflexivity.
  - repeat constructor; simpl; lia.
Defined.





(** X8 with the classifier of even odds, and with probabilities of one
    class only. *)
Lemma BDT_predict_second_column_witness :
  (exists y_pred,
      BDT_predict even_odds tiny_frame () = Ok y_pred
      /\ length y_pred = 2%nat)
  /\ BDT_predict
       {| booster := unit;
          fit := fun b _ _ _ => Ok b;
          predict_proba := fun _ X => Ok ((fun _ => [frac 1 1]) <$> X) |}
       tiny_frame () = Raise IndexError.
Proof.
  split.
  - destruct (BDT_predict_second_column even_odds tiny_frame ()
                [[frac 1 2; frac 1 2]; [frac 1 2; frac 1 2]] eq_refl)
      as [Hok _].
    destruct Hok as (y_pred & Hrun & Hlen & _).
    + repeat constructor.
    + exists y_pred. split; [exact Hrun|exact Hlen].
  - apply (BDT_predict_second_column
             {| booster := unit;
                fit := fun b _ _ _ => Ok b;
                predict_proba := fun _ X => Ok ((fun _ => [frac 1 1]) <$> X) |}
             tiny_frame () [[frac 1 1]; [frac 1 1]] eq_refl).
    apply Exists_cons_hd. simpl. lia.
Defined.

(** X9 on the flat history, which stops the training at ten epochs. *)
Lemma shouldEarlyStop_not_before_witness :
  shouldEarlyStop one_mass (fin_history flat_history) 10 5 (frac 1 100)
  = Ok true
  /\ (10 <= Z.of_nat (length (fin_history flat_history)))%Z
  /\ (5 < Z.of_nat (length (fin_history flat_history)))%Z.
Proof.
  assert (shouldEarlyStop one_mass (fin_history flat_history) 10 5
            (frac 1 100) = Ok true) as Hstop
    by (vm_compute; reflexivity).
  split; [exact Hstop|].
  exact (shouldEarlyStop_not_before one_mass (fin_history flat_history) 10 5
           (frac 1 100) Hstop).
Defined.

(** X10 on a history of two epochs, the second with a [NaN] loss. *)
Lemma shouldSchedulerStep_nan_witness :
  shouldSchedulerStep 0 [[frac 1 1]; [NaN]] = Raise IndexError.
Proof.
  apply (shouldSchedulerStep_nan 0 [[frac 1 1]; [NaN]] 1 [NaN]).
  - repeat constructor.
  - apply list_elem_of_further, list_elem_of_here.
  - apply list_elem_of_here.
Defined.

(** X11 on the tiny run of three epochs. *)
Lemma train_history_shape_witness :
  exists trl tel,
    tiny_run None = Ok (trl, tel)
    /\ (length trl <= 3)%nat
    /\ (length tel <= length trl <= S (length tel))%nat
    /\ Forall (fun r => length r = 1%nat) trl.
Proof.
  destruct (tiny_run None) as [[trl tel]|e] eqn:E; [|by vm_compute in E].
  exists trl, tel. split; [reflexivity|].
  destruct (train_history_shape still_torch (quiet_env None) one_mass
              tiny_frame tiny_y tiny_frame tiny_y tiny_w tiny_w
              3%Z 32%Z 10%Z 5%Z (frac 1 100) () trl tel E)
    as (Hmax & Hlen & _ & Htrl & _).
  split; [exact Hmax|]. split; [exact Hlen|exact Htrl].
Defined.

(** X12 on the tiny run: three epochs, as many as [max_epochs]. *)
Lemma train_not_stopped_early_witness :
  exists trl tel,
    tiny_run None = Ok (trl, tel)
    /\ length tel = length trl
    /\ (length trl = 3%nat
        \/ (10 <= Z.of_nat (length trl))%Z /\ (5 < Z.of_nat (length trl))%Z).
Proof.
  destruct (tiny_run None) as [[trl tel]|e] eqn:E; [|by vm_compute in E].
  exists trl, tel. split; [reflexivity|].
  exact (train_not_stopped_early still_torch (quiet_env None) one_mass
           tiny_frame tiny_y tiny_frame tiny_y tiny_w tiny_w
           3%Z 32%Z 10%Z 5%Z (frac 1 100) () trl tel eq_refl E).
Defined.

(** X13 on the tiny sample, with the network whose loss is [NaN]. *)
Lemma train_nan_loss_witness :
  train nan_torch (quiet_env None) one_mass tiny_frame tiny_y tiny_frame
    tiny_y tiny_w tiny_w 3 32 10 5 (frac 1 100) ()
  = Raise IndexError.
Proof.
  eapply (train_nan_loss nan_torch (quiet_env None) one_mass tiny_frame
            tiny_y tiny_frame tiny_y tiny_w tiny_w 3%Z 32%Z 10%Z 5%Z
            (frac 1 100) () _ 0%nat).
  - vm_compute. reflexivity.
  - reflexivity.
  - simpl. lia.
  - reflexivity.
  - vm_compute. reflexivity.
  - vm_compute. reflexivity.
  - apply list_elem_of_here.
Defined.

(** X14 on the fair sample, in batches of three: the second batch holds
    the one event left. *)
Lemma getBatches_sizes_witness :
  exists batches b,
    getBatches fair_X fair_y fair_w 3 None = Ok batches
    /\ batches !! 1%nat = Some b
    /\ length b.1.1 = 1%nat
    /\ length b.1.2 = length b.1.1.
Proof.
  eexists _, _. split; [vm_compute; reflexivity|]. split; [reflexivity|].
  match goal with |- length (?b).1.1 = _ /\ _ =>
    destruct (getBatches_sizes fair_X fair_y fair_w 3%Z None _ ltac:(lia)
                eq_refl eq_refl ltac:(intros ids [=])
                ltac:(vm_compute; reflexivity) 1%nat b eq_refl)
      as (H1 & H2 & _)
  end.
  split; [exact H1|exact H2].
Defined.

(** X15 on the fair sample. *)
Lemma getBatches_bad_batch_size_witness :
  getBatches fair_X fair_y fair_w 0 None = Raise ValueError
  /\ getBatches fair_X fair_y fair_w (-32) None = Ok [].
Proof.
  split.
  - by apply (getBatches_bad_batch_size fair_X fair_y fair_w 0).
  - apply (getBatches_bad_batch_size fair_X fair_y fair_w (-32)). lia.
Defined.

(** X16 on the fair sample, and on no events, with batches of 1024. *)
Lemma getTotLoss_one_batch_witness :
  getTotLoss still_torch fair_X fair_y fair_w 1024 ()
  = Ok (MSELoss ((fun _ => frac 1 2) <$> single2 fair_X) (single1 fair_y)
          (single1 fair_w), ())
  /\ getTotLoss still_torch [] [] [] 1024 () = Ok (Fin 0, ()).
Proof.
  split.
  - apply (getTotLoss_one_batch still_torch fair_X fair_y fair_w 1024 ()).
    + lia.
    + reflexivity.
    + reflexivity.
    + apply fair_sample_rows.
    + simpl. lia.
  - apply (getTotLoss_one_batch still_torch [] [] [] 1024 ()).
    + lia.
    + reflexivity.
    + reflexivity.
    + constructor.
    + simpl. lia.
Defined.






(** X21 with the metrics library whose AUC fails. *)
Lemma getROC_fallback_bounded_witness :
  getROC failing_auc (fun _ => Ok [frac 1 2; frac 1 2]) tiny_frame tiny_y None
  = Ok ([frac 0 1; frac 1 2; frac 1 1], [frac 0 1; frac 1 1; frac 1 1],
        Fin (trapezoid [Q2Qc (0 # 1); Q2Qc (1 # 2); Q2Qc (1 # 1)]
               [Q2Qc (0 # 1); Q2Qc (1 # 1); Q2Qc (1 # 1)]))
  /\ 0 <= trapezoid [Q2Qc (0 # 1); Q2Qc (1 # 2); Q2Qc (1 # 1)]
            [Q2Qc (0 # 1); Q2Qc (1 # 1); Q2Qc (1 # 1)] <= 1.
Proof.
  destruct (getROC_fallback_bounded failing_auc
              (fun _ => Ok [frac 1 2; frac 1 2]) tiny_frame tiny_y None
              [frac 1 2; frac 1 2] [frac 2 1; frac 1 1; frac 0 1]
              [Q2Qc (0 # 1); Q2Qc (1 # 2); Q2Qc (1 # 1)]
              [Q2Qc (0 # 1); Q2Qc (1 # 1); Q2Qc (1 # 1)] ValueError
              eq_refl eq_refl eq_refl eq_refl) as [Hrun Hbounds].
  split; [exact Hrun|]. apply Hbounds.
  - intros i x x' Hx Hx'.
    destruct i as [|[|i]]; simpl in Hx, Hx'; simplify_eq; by vm_compute.
  - reflexivity.
  - reflexivity.
  - repeat constructor; by vm_compute.
Defined.

(** X22 on the tiny frame, with [batch_size=-1]. *)
Lemma predict_bad_batch_size_witness :
  predict still_torch tiny_frame (-1) () = Raise ValueError.
Proof.
  apply (predict_bad_batch_size still_torch tiny_frame (-1) ()). lia.
Defined.

